(** * Food Repository Viewer: the retention-time binning pipeline

    A shallow embedding of [Food_repositry_viewer_cloud.py].  The script
    fetches a peak list per selected sample, bins the retention times
    with a user-chosen merge width, normalises the bin sums to percent,
    and sums the intensities over five fixed retention-time ranges.

    Numbers.  The script computes on IEEE doubles, and on 64-bit
    integers where a column of the payload holds integers only.  The
    numeric code is given twice.

    First in exact arithmetic: a number is a rational ([Q]), no
    operation rounds, overflows or wraps.  This says what the script's
    formulas mean, and it is what the script computes wherever its own
    operations are exact (whole numbers and halves of moderate size, the
    width 1.0).  The non-finite results of a division by zero (0/0,
    x/0) are kept, as [npfloat], because the normalisation step can
    reach them.  Properties proved on these definitions are properties
    of the formulas; where they are stated for all inputs they are
    worded as holding in exact arithmetic.

    Then on the machine numbers (the part headed "The engine on IEEE
    754 doubles"): binary64 values with every operation rounded to
    nearest, overflowing to an infinity, and int64 sums that wrap.  The
    number of bin edges, the value of the last edge and the sums of
    large intensities differ between the two, and the properties that
    depend on them are stated on the machine numbers. *)

From Stdlib Require Import List Bool Arith ZArith QArith Qround Qminmax Lia Lqa
  String Ascii DecimalString Permutation SpecFloat.
Import ListNotations.
Local Open Scope Q_scope.

(** ** Numeric helpers *)

(** Python's [sum] / pandas' [Series.sum] in exact arithmetic:
    left-to-right, from 0.  ([sum_f64] and [sum_i64] below are the sums
    on doubles and on int64.) *)
Definition Qsum (l : list Q) : Q := fold_left Qplus l 0.

(** [Series.min()] and [Series.max()] on a series of finite values.
    On an empty series pandas answers NaN; the script never gets there
    (an empty payload has no [rt] column), and the model answers 0. *)
Definition series_min (s : list Q) : Q :=
  match s with
  | [] => 0
  | x :: xs => fold_left Qmin xs x
  end.

Definition series_max (s : list Q) : Q :=
  match s with
  | [] => 0
  | x :: xs => fold_left Qmax xs x
  end.

(** ** numpy *)

(** [np.arange(start, stop, step)] in exact arithmetic:
    [ceil((stop - start) / step)] values [start + i * step].  The script
    calls it with a step from the slider, which is positive.
    ([arange_f64] below is the call on doubles, where the quotient and
    the values are rounded.) *)
Definition arange_len (start stop step : Q) : nat :=
  Z.to_nat (Qceiling ((stop - start) / step)).

Definition arange (start stop step : Q) : list Q :=
  map (fun i => start + inject_Z (Z.of_nat i) * step)
      (seq 0 (arange_len start stop step)).

(** [np.searchsorted(bins, x, side='right')] on increasing [bins]: the
    first position whose edge is strictly above [x]. *)
Fixpoint searchsorted_right (bins : list Q) (x : Q) : nat :=
  match bins with
  | [] => O
  | e :: rest => if Qle_bool e x then S (searchsorted_right rest x) else O
  end.

(** [np.digitize(xs, bins=bins)] with the default [right=False]:
    index [i] means [bins[i-1] <= x < bins[i]]; [0] is below the first
    edge and [len(bins)] is at or above the last one. *)
Definition digitize (xs bins : list Q) : list nat :=
  map (searchsorted_right bins) xs.

(** ** The merge-width histogram (lines 105-114) *)

(** Line 105, in exact arithmetic. *)
Definition bin_edges (retention_time : list Q) (rt_merge_width : Q) : list Q :=
  arange (series_min retention_time)
         (series_max retention_time + rt_merge_width)
         rt_merge_width.

(** Line 106. *)
Definition bin_indices (retention_time : list Q) (rt_merge_width : Q) : list nat :=
  digitize retention_time (bin_edges retention_time rt_merge_width).

(** [intensity[bin_indices == i].sum()]: boolean-mask selection, by
    position, then the sum. *)
Definition masked (intensity : list Q) (indices : list nat) (i : nat) : list Q :=
  map fst (filter (fun p => Nat.eqb (snd p) i) (combine intensity indices)).

Definition masked_sum (intensity : list Q) (indices : list nat) (i : nat) : Q :=
  Qsum (masked intensity indices i).

(** Line 107: one sum per [i] in [range(1, len(bin_edges))]. *)
Definition binned_intensity (retention_time intensity : list Q)
    (rt_merge_width : Q) : list Q :=
  map (masked_sum intensity (bin_indices retention_time rt_merge_width))
      (seq 1 (List.length (bin_edges retention_time rt_merge_width) - 1)).

(** ** Normalisation (lines 110-111) *)

(** What a numpy scalar division and product can return.  A zero
    divisor gives no exception, only NaN (for 0/0) or an infinity.  (In
    exact arithmetic this is the only way to a non-finite value; on
    doubles a sum can overflow to an infinity first, see
    [normalize_f64].) *)
Inductive npfloat : Type :=
| Finite (q : Q)
| PosInf
| NegInf
| NaN.

Definition is_finite (x : npfloat) : bool :=
  match x with Finite _ => true | _ => false end.

(** [a / b] on numpy scalars. *)
Definition np_div (a b : Q) : npfloat :=
  if Qeq_bool b 0 then
    if Qeq_bool a 0 then NaN
    else if Qle_bool 0 a then PosInf else NegInf
  else Finite (a / b).

(** [x * c] for a finite, positive [c] (the script's [* 100]). *)
Definition np_scale (x : npfloat) (c : Q) : npfloat :=
  match x with
  | Finite q => Finite (q * c)
  | other => other
  end.

(** Line 110. *)
Definition total_intensity (retention_time intensity : list Q)
    (rt_merge_width : Q) : Q :=
  Qsum (binned_intensity retention_time intensity rt_merge_width).

(** Line 111. *)
Definition relative_intensity (retention_time intensity : list Q)
    (rt_merge_width : Q) : list npfloat :=
  map (fun val =>
         np_scale (np_div val (total_intensity retention_time intensity rt_merge_width))
                  100)
      (binned_intensity retention_time intensity rt_merge_width).

(** The finite entries of a list of results, for summing them. *)
Fixpoint finite_values (l : list npfloat) : list Q :=
  match l with
  | [] => []
  | Finite q :: rest => q :: finite_values rest
  | _ :: rest => finite_values rest
  end.

(** Line 114: [(bin_edges[:-1] + bin_edges[1:]) / 2]. *)
Definition bin_centers (edges : list Q) : list Q :=
  map (fun p => (fst p + snd p) / 2) (combine (removelast edges) (tl edges)).

(** ** The five fixed ranges (lines 84, 126-131) *)

Local Open Scope string_scope.

(** Line 84. *)
Definition bin_labels : list string :=
  ["0-20 min"; "20-40 min"; "40-60 min"; "60-80 min"; "80+ min"].

(** An edge of [pd.cut]: a number or [np.inf]. *)
Inductive edge : Type :=
| At (q : Q)
| Infinity.

(** Line 126. *)
Definition bins : list edge :=
  [At 0; At 20; At 40; At 60; At 80; Infinity].

Definition edge_le (e : edge) (x : Q) : bool :=
  match e with
  | At q => Qle_bool q x
  | Infinity => false
  end.

(** [pd.cut(x, bins, labels, right=False)] for one value: the label of
    the interval [lo, hi) that holds [x], NaN when none does. *)
Fixpoint pd_cut (x : Q) (edges : list edge) (labels : list string)
  : option string :=
  match edges with
  | [] => None
  | lo :: rest =>
      match rest, labels with
      | hi :: _, lab :: labs =>
          if edge_le lo x && negb (edge_le hi x) then Some lab
          else pd_cut x rest labs
      | _, _ => None
      end
  end.

(** Line 127: the new column [RT_range]. *)
Definition RT_range (retention_time : list Q) : list (option string) :=
  map (fun x => pd_cut x bins bin_labels) retention_time.

(** The cells of [vals] whose key is the category [c]. *)
Definition group (keys : list (option string)) (vals : list Q) (c : string)
  : list Q :=
  map snd
      (filter (fun p => match fst p with
                        | Some k => String.eqb k c
                        | None => false
                        end)
              (combine keys vals)).

(** [groupby(col)[...].sum()] on a categorical column.  With
    [observed = false] (the default of older pandas) every category has
    a row; with [observed = true] only the categories that occur do. *)
Definition groupby_sum (observed : bool) (categories : list string)
    (keys : list (option string)) (vals : list Q) : list (string * Q) :=
  map (fun c => (c, Qsum (group keys vals c)))
      (filter (fun c => negb observed
                        || negb (Nat.eqb (List.length (group keys vals c)) 0))
              categories).

Fixpoint series_get (s : list (string * Q)) (key : string) : option Q :=
  match s with
  | [] => None
  | (k, v) :: rest => if String.eqb k key then Some v else series_get rest key
  end.

(** [Series.reindex(index, fill_value=fill)]. *)
Definition reindex (s : list (string * Q)) (index : list string) (fill : Q)
  : list (string * Q) :=
  map (fun k => (k, match series_get s k with
                    | Some v => v
                    | None => fill
                    end))
      index.

(** Lines 130-131. *)
Definition intensity_sum (observed : bool) (retention_time intensity : list Q)
  : list (string * Q) :=
  reindex (groupby_sum observed bin_labels (RT_range retention_time) intensity)
          bin_labels 0%Q.

(** The sum of the intensities whose retention time lies in [lo, hi). *)
Definition in_range (lo : Q) (hi : edge) (x : Q) : bool :=
  Qle_bool lo x && negb (edge_le hi x).

Definition range_sum (lo : Q) (hi : edge) (retention_time intensity : list Q) : Q :=
  Qsum (map snd (filter (fun p => in_range lo hi (fst p))
                        (combine retention_time intensity))).

(** ** Chart objects (lines 117-122, 134-147) *)

Record Scatter : Type := {
  scatter_x : list Q;
  scatter_y : list npfloat;
  scatter_mode : string;
  scatter_name : string
}.

Record Pie : Type := {
  pie_labels : list string;
  pie_values : list Q;
  pie_hole : Q;
  pie_sort : bool;
  pie_direction : string;
  pie_title : string
}.

(** [f'{sample_name} (ID: {fid})'] *)
Definition chart_title (sample_name fid : string) : string :=
  (sample_name ++ " (ID: " ++ fid ++ ")")%string.

(** Lines 117-122. *)
Definition make_trace (sample_name fid : string)
    (retention_time intensity : list Q) (rt_merge_width : Q) : Scatter :=
  {| scatter_x := bin_centers (bin_edges retention_time rt_merge_width);
     scatter_y := relative_intensity retention_time intensity rt_merge_width;
     scatter_mode := "lines";
     scatter_name := chart_title sample_name fid |}.

(** Lines 134-146. *)
Definition make_pie (observed : bool) (sample_name fid : string)
    (retention_time intensity : list Q) : Pie :=
  {| pie_labels := bin_labels;
     pie_values := map snd (intensity_sum observed retention_time intensity);
     pie_hole := (3 # 10)%Q;
     pie_sort := false;
     pie_direction := "clockwise";
     pie_title := chart_title sample_name fid |}.

(** ** The fetch loop (lines 73-150) *)

(** One record of the peak list, as [response.json()] gives it: a dict
    from field names to numbers (keys are unique; other fields may be
    present and are ignored). *)
Definition json_object : Type := list (string * Q).

Fixpoint dict_get (o : json_object) (key : string) : option Q :=
  match o with
  | [] => None
  | (k, v) :: rest => if String.eqb k key then Some v else dict_get rest key
  end.

Record Response : Type := {
  status_code : Z;
  json : list json_object
}.

(** The exception the loop body can raise on such a payload. *)
Inductive exn : Type :=
| KeyError (key : string).

(** A small error monad for the loop body. *)
Definition bind {A B : Type} (m : exn + A) (k : A -> exn + B) : exn + B :=
  match m with
  | inl e => inl e
  | inr a => k a
  end.

Notation "x <- m ;; k" := (bind m (fun x => k))
  (at level 61, m at next level, right associativity).

(** [pd.DataFrame(peaklist)]: a row per record and a column per key
    that occurs in some record; a record without the key has NaN (here
    [None]) in that column. *)
Definition has_column (data : list json_object) (key : string) : bool :=
  existsb (fun o => match dict_get o key with Some _ => true | None => false end)
          data.

(** [data[key]], which raises [KeyError] when there is no such column. *)
Definition getitem (data : list json_object) (key : string)
  : exn + list (option Q) :=
  if has_column data key then inr (map (fun o => dict_get o key) data)
  else inl (KeyError key).

(** How the two transforms see NaN cells.  A row whose [rt] is NaN is
    skipped by [min] and [max], gets the index [len(bin_edges)] from
    [np.digitize] and NaN from [pd.cut], so it is in no bin and in no
    range; a NaN intensity is skipped by every [sum].  The transforms
    therefore run on the rows that have an [rt], a missing intensity
    counting as 0. *)
Fixpoint skipna (rt_cells intensity_cells : list (option Q)) : list (Q * Q) :=
  match rt_cells, intensity_cells with
  | r :: rs, i :: is' =>
      match r with
      | Some x => (x, match i with Some y => y | None => 0%Q end) :: skipna rs is'
      | None => skipna rs is'
      end
  | _, _ => []
  end.

(** A row of [sample_list.csv]. *)
Record Sample : Type := {
  fid : string;
  nameJa : string;
  catJa : string
}.

Inductive mode : Type := pos | neg.

Definition mode_name (m : mode) : string :=
  match m with pos => "pos" | neg => "neg" end.

(** What the loop reads and does not change: the catalogue, the slider
    value, the radio button, the remote service, and the [observed]
    default of the installed pandas.  The service is a function from
    the URL to the response it returns; a request that ends in a
    network error instead of a response is outside the model. *)
Record Env : Type := {
  sample_list_df : list Sample;
  rt_merge_width : Q;
  detection_mode : mode;
  requests_get : string -> Response;
  observed : bool
}.

(** What the loop builds. *)
Record Page : Type := {
  fig : list Scatter;
  pie_charts : list Pie;
  warnings : list string
}.

Definition empty_page : Page :=
  {| fig := []; pie_charts := []; warnings := [] |}.

(** Line 78. *)
Definition base_url : string := "https://metabolites.in/foods/api/peaklist".

(** Line 91. *)
Definition endpoint (f : string) (m : mode) : string :=
  (base_url ++ "/" ++ f ++ "/" ++ mode_name m)%string.

(** Lines 87-88. *)
Definition sample_name_of (df : list Sample) (f : string) : string :=
  match filter (fun row => String.eqb (fid row) f) df with
  | row :: _ => nameJa row
  | [] => f
  end.

Definition string_of_Z (z : Z) : string :=
  NilZero.string_of_int (Z.to_int z).

(** Line 150. *)
Definition fetch_warning (f : string) (code : Z) : string :=
  ("サンプルID " ++ f ++ " のデータ取得に失敗しました: " ++ string_of_Z code)%string.

(** Line 75. *)
Definition empty_selection_warning : string :=
  "少なくとも1つのサンプルを選択してください。".

(** Lines 87-150: the body of the loop, for the sample [f]. *)
Definition loop_body (env : Env) (f : string) (st : Page) : exn + Page :=
  let sample_name := sample_name_of (sample_list_df env) f in
  let response := requests_get env (endpoint f (detection_mode env)) in
  if (status_code response =? 200)%Z then
    let data := json response in
    rt_cells <- getitem data "rt" ;;
    intensity_cells <- getitem data "intensity" ;;
    let rows := skipna rt_cells intensity_cells in
    let retention_time := map fst rows in
    let intensity := map snd rows in
    inr {| fig := fig st ++ [make_trace sample_name f retention_time intensity
                                        (rt_merge_width env)];
           pie_charts := pie_charts st ++ [make_pie (observed env) sample_name f
                                                    retention_time intensity];
           warnings := warnings st |}
  else
    inr {| fig := fig st;
           pie_charts := pie_charts st;
           warnings := warnings st ++ [fetch_warning f (status_code response)] |}.

(** How a run ends: the charts are drawn, or an exception that nothing
    catches (the script only handles [FileNotFoundError]) stops it, with
    the page as it was when the exception was raised. *)
Inductive outcome : Type :=
| Finished (st : Page)
| Raised (e : exn) (st : Page).

(** Line 86: the loop over the selected ids, in iteration order. *)
Fixpoint for_each_fid (env : Env) (fids : list string) (st : Page) : outcome :=
  match fids with
  | [] => Finished st
  | f :: rest =>
      match loop_body env f st with
      | inl e => Raised e st
      | inr st' => for_each_fid env rest st'
      end
  end.

(** Lines 73-175: the confirm button. *)
Definition on_confirm (env : Env) (selected_fids : list string) : outcome :=
  match selected_fids with
  | [] => Finished {| fig := []; pie_charts := [];
                      warnings := [empty_selection_warning] |}
  | _ => for_each_fid env selected_fids empty_page
  end.

(** Line 39: the values the slider offers, 0.05 to 1.0 in steps of 0.05. *)
Definition slider_values : list Q :=
  map (fun k => inject_Z (Z.of_nat k) * (5 # 100))%Q (seq 1 20).

(** A text names a sample when the id occurs in it. *)
Definition names_sample (text f : string) : Prop :=
  exists before after : string, text = (before ++ f ++ after)%string.

(** The engine on a peak list given as rows [(rt, intensity)]. *)
Definition col_rt (data : list (Q * Q)) : list Q := map fst data.
Definition col_intensity (data : list (Q * Q)) : list Q := map snd data.

(** Names for what one pass of the loop reads and adds, used to state
    what a whole run produces. *)
Definition response_of (env : Env) (f : string) : Response :=
  requests_get env (endpoint f (detection_mode env)).

Definition fetch_ok (env : Env) (f : string) : bool :=
  (status_code (response_of env f) =? 200)%Z.

Definition peak_rows (data : list json_object) : list (Q * Q) :=
  skipna (map (fun o => dict_get o "rt"%string) data)
         (map (fun o => dict_get o "intensity"%string) data).

Definition sample_trace (env : Env) (f : string) : Scatter :=
  let rows := peak_rows (json (response_of env f)) in
  make_trace (sample_name_of (sample_list_df env) f) f
             (map fst rows) (map snd rows) (rt_merge_width env).

Definition sample_pie (env : Env) (f : string) : Pie :=
  let rows := peak_rows (json (response_of env f)) in
  make_pie (observed env) (sample_name_of (sample_list_df env) f) f
           (map fst rows) (map snd rows).

Definition sample_warning (env : Env) (f : string) : string :=
  fetch_warning f (status_code (response_of env f)).

(** A payload the loop body can process: both columns are there. *)
Definition has_peak_columns (data : list json_object) : bool :=
  has_column data "rt"%string && has_column data "intensity"%string.

(** An HTTP status in the 2xx class. *)
Definition http_success (code : Z) : bool :=
  ((200 <=? code) && (code <=? 299))%Z.

(** ** A small session, for running the loop on concrete data *)

Definition demo_catalogue : list Sample :=
  [ {| fid := "F1"; nameJa := "rice"; catJa := "grain" |};
    {| fid := "F2"; nameJa := "soy"; catJa := "bean" |};
    {| fid := "F3"; nameJa := "tea"; catJa := "drink" |} ]%string.

Definition demo_peaks : list json_object :=
  [ [("rt", 5); ("intensity", 10); ("mz", 301)];
    [("rt", 15); ("intensity", 20); ("mz", 120)];
    [("rt", 101 # 4); ("intensity", 30); ("mz", 77)] ]%string%Q.

Definition demo_env (service : string -> Response) : Env :=
  {| sample_list_df := demo_catalogue;
     rt_merge_width := 1 # 2;
     detection_mode := pos;
     requests_get := service;
     observed := false |}.

(** The service answers 500 for sample F2 and a peak list otherwise. *)
Definition service_failing_F2 (url : string) : Response :=
  if String.eqb url (endpoint "F2" pos)
  then {| status_code := 500; json := [] |}
  else {| status_code := 200; json := demo_peaks |}.

(** The service answers 200 for sample F2 with records that have no
    [rt] field, and a peak list otherwise. *)
Definition service_malformed_F2 (url : string) : Response :=
  if String.eqb url (endpoint "F2" pos)
  then {| status_code := 200;
          json := [[("intensity", 1)]; [("intensity", 2)]]%string%Q |}
  else {| status_code := 200; json := demo_peaks |}.

(** Whether a width is one the slider offers, as a number. *)
Definition on_slider (w : Q) : bool := existsb (Qeq_bool w) slider_values.

(** Whether [pd.cut] gives the value [x] the label [c]. *)
Definition has_label (c : string) (x : Q) : bool :=
  match pd_cut x bins bin_labels with
  | Some k => String.eqb k c
  | None => false
  end.

(** The number of bins as the specification words it:
    [ceil((max(rt) - min(rt)) / w)]. *)
Definition bin_count (retention_time : list Q) (w : Q) : nat :=
  Z.to_nat (Qceiling ((series_max retention_time - series_min retention_time) / w)).

(** ** The selection table (lines 45-62) *)

(** Lines 45-48: the checkbox column, ticked for the rows whose id is
    in the stored selection.  (The catalogue file has the three columns
    of [Sample], so the column is always created.) *)
Definition checkbox_column (df : list Sample) (selected : list string)
  : list bool :=
  map (fun row => existsb (String.eqb (fid row)) selected) df.

(** Line 53: the table handed to the editor. *)
Definition selection_table (df : list Sample) (selected : list string)
  : list (Sample * bool) :=
  combine df (checkbox_column df selected).

(** Line 61: [edited_df[edited_df['選択']]['fid'].tolist()]. *)
Definition checked_fids (edited_df : list (Sample * bool)) : list string :=
  map (fun row => fid (fst row)) (filter snd edited_df).

(** Line 62: [set(selected_fids)].  A set is kept as a list without
    repetition; its order stands for the order in which Python iterates
    over the set, which the script does not control. *)
Definition to_set (l : list string) : list string := nodup string_dec l.

(** Lines 60-62: what the save button stores. *)
Definition save_selection (edited_df : list (Sample * bool)) : list string :=
  to_set (checked_fids edited_df).

(** ** The grid of pie charts (lines 171-175) *)

(** [with cols[c]: st.plotly_chart(x)]: the chart goes below what the
    column [c] already shows. *)
Fixpoint plot_in {A : Type} (cols : list (list A)) (c : nat) (x : A)
  : list (list A) :=
  match cols, c with
  | [], _ => []
  | col :: rest, O => (col ++ [x])%list :: rest
  | col :: rest, S c' => col :: plot_in rest c' x
  end.

(** Lines 173-175: the loop over [enumerate(pie_charts)], from index [i]. *)
Fixpoint show_from {A : Type} (i : nat) (charts : list A) (cols : list (list A))
  : list (list A) :=
  match charts with
  | [] => cols
  | x :: rest => show_from (S i) rest (plot_in cols (i mod 5) x)
  end.

(** Lines 172-175: five empty columns, then the loop. *)
Definition show_in_columns {A : Type} (charts : list A) : list (list A) :=
  show_from 0 charts (repeat [] 5).

(** ** Comparing results of the normalisation *)

(** Two results are the same number: finite and equal as rationals, or
    the same non-finite value. *)
Definition npfloat_eq (x y : npfloat) : Prop :=
  match x, y with
  | Finite a, Finite b => a == b
  | PosInf, PosInf => True
  | NegInf, NegInf => True
  | NaN, NaN => True
  | _, _ => False
  end.

(** ** The normalisation step on its own (lines 110-111) *)

(** Lines 110-111 as a function of the list of bin sums. *)
Definition normalize (binned : list Q) : list npfloat :=
  map (fun val => np_scale (np_div val (Qsum binned)) 100) binned.

(** * The engine on IEEE 754 doubles

    The definitions above compute on exact rationals: they say what the
    script's formulas mean, and they agree with the script wherever its
    double operations happen to be exact.  The definitions below follow
    the script on binary64 values, with the operations of the reference
    specification [SpecFloat] (53 bits of precision, exponents up to
    1024): every sum, difference, product and quotient is rounded to the
    nearest double, ties to even, and can overflow to an infinity.

    The columns are float64 columns, except in [intensity_sum_i64]: an
    intensity column whose JSON numbers are all integers is an int64
    column in pandas, and its sums are 64-bit integer sums. *)

Definition f64 : Type := spec_float.

Definition f64_add (x y : f64) : f64 := SFadd 53 1024 x y.
Definition f64_sub (x y : f64) : f64 := SFsub 53 1024 x y.
Definition f64_mul (x y : f64) : f64 := SFmul 53 1024 x y.
Definition f64_div (x y : f64) : f64 := SFdiv 53 1024 x y.
Definition f64_ltb (x y : f64) : bool := SFltb x y.
Definition f64_leb (x y : f64) : bool := SFleb x y.

(** The double nearest to an integer. *)
Definition f64_of_Z (z : Z) : f64 := binary_normalize 53 1024 z 0 false.

(** The double that a decimal literal denotes, for a literal written as
    a fraction: [5 # 100] is [float("0.05")].  The quotient of two
    doubles is rounded once, so this is the nearest double whenever the
    numerator and the denominator are themselves doubles (below 2^53,
    or a power of ten up to 10^22, or the denominator is 1). *)
Definition f64_of_Q (q : Q) : f64 :=
  f64_div (f64_of_Z (Qnum q)) (f64_of_Z (Zpos (Qden q))).

Definition f64_zero : f64 := S754_zero false.
Definition f64_inf : f64 := S754_infinity false.

(** The number a finite double stands for (0 for the others). *)
Definition f64_value (x : f64) : Q :=
  match x with
  | S754_finite s m e =>
      let v := match e with
               | Z0 => Zpos m # 1
               | Zpos p => (Zpos m * Z.pow_pos 2 p) # 1
               | Zneg p => Zpos m # (Pos.pow 2 p)
               end in
      if s then - v else v
  | _ => 0
  end.

Definition f64_is_nan (x : f64) : bool :=
  match x with S754_nan => true | _ => false end.

(** [Series.min()] and [Series.max()] on a float64 series without NaN
    (an empty series gives NaN). *)
Definition series_min_f64 (s : list f64) : f64 :=
  match s with
  | [] => S754_nan
  | x :: xs => fold_left (fun acc y => if f64_ltb y acc then y else acc) xs x
  end.

Definition series_max_f64 (s : list f64) : f64 :=
  match s with
  | [] => S754_nan
  | x :: xs => fold_left (fun acc y => if f64_ltb acc y then y else acc) xs x
  end.

(** The length [np.arange] computes: the ceiling of the double quotient
    [(stop - start) / step].  A quotient that is NaN or infinite makes
    numpy raise ([None] here); a length of 0 or less gives the empty
    array.  (numpy also special-cases a quotient that underflows to 0,
    which a step of at most 1 cannot produce.) *)
Definition arange_len_f64 (start stop step : f64) : option nat :=
  match f64_div (f64_sub stop start) step with
  | S754_nan => None
  | S754_infinity _ => None
  | quotient => Some (Z.to_nat (Qceiling (f64_value quotient)))
  end.

(** [np.arange(start, stop, step)] on doubles: the first value is
    [start], the second [start + step], and from the third on the value
    at position [i] is [start + i * delta] with
    [delta = (start + step) - start], each operation rounded. *)
Definition arange_f64 (start stop step : f64) : option (list f64) :=
  match arange_len_f64 start stop step with
  | None => None
  | Some len =>
      let next := f64_add start step in
      let delta := f64_sub next start in
      Some (map (fun i => match i with
                          | O => start
                          | S O => next
                          | _ => f64_add start
                                         (f64_mul (f64_of_Z (Z.of_nat i)) delta)
                          end)
                (seq 0 len))
  end.

(** Line 105. *)
Definition bin_edges_f64 (retention_time : list f64) (rt_merge_width : f64)
  : option (list f64) :=
  arange_f64 (series_min_f64 retention_time)
             (f64_add (series_max_f64 retention_time) rt_merge_width)
             rt_merge_width.

(** [np.searchsorted(bins, x, side='right')] on non-decreasing [bins];
    NaN sorts after every number. *)
Fixpoint scan_right_f64 (bins : list f64) (x : f64) : nat :=
  match bins with
  | [] => O
  | e :: rest => if f64_leb e x then S (scan_right_f64 rest x) else O
  end.

Definition searchsorted_right_f64 (bins : list f64) (x : f64) : nat :=
  if f64_is_nan x then List.length bins else scan_right_f64 bins x.

(** Line 106. *)
Definition digitize_f64 (xs bins : list f64) : list nat :=
  map (searchsorted_right_f64 bins) xs.

(** [Series.sum()] on a float64 series, and Python's [sum] on a list of
    numpy doubles: from 0, left to right, each addition rounded.  (numpy
    regroups the additions of a series of eight elements or more; up to
    seven elements, and whenever no addition rounds, the result is the
    same.) *)
Definition sum_f64 (l : list f64) : f64 := fold_left f64_add l f64_zero.

Definition masked_f64 (intensity : list f64) (indices : list nat) (i : nat)
  : list f64 :=
  map fst (filter (fun p => Nat.eqb (snd p) i) (combine intensity indices)).

(** Line 107, for given edges. *)
Definition binned_from_edges_f64 (retention_time intensity edges : list f64)
  : list f64 :=
  map (fun i => sum_f64 (masked_f64 intensity (digitize_f64 retention_time edges) i))
      (seq 1 (List.length edges - 1)).

(** Lines 110-111. *)
Definition normalize_f64 (binned : list f64) : list f64 :=
  map (fun val => f64_mul (f64_div val (sum_f64 binned)) (f64_of_Z 100)) binned.

(** Line 114. *)
Definition bin_centers_f64 (edges : list f64) : list f64 :=
  map (fun p => f64_div (f64_add (fst p) (snd p)) (f64_of_Z 2))
      (combine (removelast edges) (tl edges)).

(** Lines 105-114: everything the histogram step computes. *)
Record Histogram : Type := {
  h_edges : list f64;
  h_indices : list nat;
  h_binned : list f64;
  h_total : f64;
  h_relative : list f64;
  h_centers : list f64
}.

Definition histogram_f64 (retention_time intensity : list f64)
    (rt_merge_width : f64) : option Histogram :=
  match bin_edges_f64 retention_time rt_merge_width with
  | None => None
  | Some edges =>
      let binned := binned_from_edges_f64 retention_time intensity edges in
      Some {| h_edges := edges;
              h_indices := digitize_f64 retention_time edges;
              h_binned := binned;
              h_total := sum_f64 binned;
              h_relative := normalize_f64 binned;
              h_centers := bin_centers_f64 edges |}
  end.

(** Line 126, with [np.inf] as a double. *)
Definition bins_f64 : list f64 :=
  [f64_of_Z 0; f64_of_Z 20; f64_of_Z 40; f64_of_Z 60; f64_of_Z 80; f64_inf].

(** [pd.cut] with [right=False] on doubles. *)
Fixpoint pd_cut_f64 (x : f64) (edges : list f64) (labels : list string)
  : option string :=
  match edges with
  | [] => None
  | lo :: rest =>
      match rest, labels with
      | hi :: _, lab :: labs =>
          if f64_leb lo x && f64_ltb x hi then Some lab
          else pd_cut_f64 x rest labs
      | _, _ => None
      end
  end.

(** A retention time that is a finite number, at least 0. *)
Definition finite_nonneg_f64 (x : f64) : bool :=
  f64_leb (f64_of_Z 0) x && f64_ltb x f64_inf.

(** The label of a retention time read off the thresholds 20, 40, 60
    and 80. *)
Definition range_of_f64 (x : f64) : string :=
  if f64_ltb x (f64_of_Z 20) then "0-20 min"
  else if f64_ltb x (f64_of_Z 40) then "20-40 min"
  else if f64_ltb x (f64_of_Z 60) then "40-60 min"
  else if f64_ltb x (f64_of_Z 80) then "60-80 min"
  else "80+ min".

(** The cells of [vals] whose key is the category [c], for a column of
    any type. *)
Definition group_by_key {A : Type} (keys : list (option string)) (vals : list A)
    (c : string) : list A :=
  map snd
      (filter (fun p => match fst p with
                        | Some k => String.eqb k c
                        | None => false
                        end)
              (combine keys vals)).

(** Line 127 on doubles. *)
Definition RT_range_f64 (retention_time : list f64) : list (option string) :=
  map (fun x => pd_cut_f64 x bins_f64 bin_labels) retention_time.

(** Lines 127-131 on a float64 intensity column; after [reindex] every
    label has a value, 0 where no point carries the label.  (The sum of
    a group is taken left to right here.  pandas' [groupby] sum carries
    a correction term from one addition to the next; the result is the
    same for a group of one or two values, and wherever no addition
    rounds.) *)
Definition intensity_sum_f64 (retention_time intensity : list f64)
  : list (string * f64) :=
  map (fun c => (c, sum_f64 (group_by_key (RT_range_f64 retention_time) intensity c)))
      bin_labels.

(** An intensity column whose JSON numbers are all integers is an int64
    column: its sums are 64-bit two's complement sums, which wrap
    around silently. *)
Definition wrap_i64 (z : Z) : Z := ((z + 2 ^ 63) mod 2 ^ 64 - 2 ^ 63)%Z.

Definition sum_i64 (l : list Z) : Z :=
  fold_left (fun acc v => wrap_i64 (acc + v)) l 0%Z.

(** Lines 127-131 on an int64 intensity column. *)
Definition intensity_sum_i64 (retention_time : list f64) (intensity : list Z)
  : list (string * Z) :=
  map (fun c => (c, sum_i64 (group_by_key (RT_range_f64 retention_time) intensity c)))
      bin_labels.

(** The sum of a list of integers, as a number. *)
Definition Zsum (l : list Z) : Z := fold_left Z.add l 0%Z.

(** The columns of a payload of doubles. *)
Definition col_rt_f64 (data : list (f64 * f64)) : list f64 := map fst data.
Definition col_intensity_f64 (data : list (f64 * f64)) : list f64 := map snd data.

(** A payload written with decimal literals. *)
Definition payload_f64 (rows : list (Q * Q)) : list (f64 * f64) :=
  map (fun p => (f64_of_Q (fst p), f64_of_Q (snd p))) rows.

(** * Properties *)

Local Open Scope Q_scope.

(** ** Sums *)

Lemma fold_Qplus_acc (l : list Q) :
  forall a, fold_left Qplus l a == a + Qsum l.
Proof.
  unfold Qsum.
  induction l as [|x l IH]; intro a; simpl.
  - ring.
  - rewrite (IH (a + x)), (IH (0 + x)). ring.
Qed.

Lemma Qsum_nil : Qsum [] = 0.
Proof. reflexivity. Qed.

Lemma Qsum_cons (x : Q) (l : list Q) : Qsum (x :: l) == x + Qsum l.
Proof.
  unfold Qsum at 1. simpl. rewrite fold_Qplus_acc. ring.
Qed.

Lemma Qsum_app (l1 l2 : list Q) : Qsum (l1 ++ l2) == Qsum l1 + Qsum l2.
Proof.
  induction l1 as [|x l1 IH]; simpl.
  - rewrite Qsum_nil. ring.
  - rewrite !Qsum_cons, IH. ring.
Qed.

Lemma Qsum_map_scale (f : Q -> Q) (c : Q) (l : list Q) :
  (forall v, f v == v * c) ->
  Qsum (map f l) == Qsum l * c.
Proof.
  intro Hf.
  induction l as [|x l IH]; simpl.
  - rewrite Qsum_nil. ring.
  - rewrite !Qsum_cons, IH, Hf. ring.
Qed.

(** ** Minimum and maximum of a series *)

Lemma fold_Qmin_le_acc (xs : list Q) : forall a, fold_left Qmin xs a <= a.
Proof.
  induction xs as [|x xs IH]; intro a; simpl.
  - apply Qle_refl.
  - eapply Qle_trans; [apply IH | apply Q.le_min_l].
Qed.

Lemma fold_Qmin_le_in (xs : list Q) :
  forall a y, In y xs -> fold_left Qmin xs a <= y.
Proof.
  induction xs as [|x xs IH]; intros a y Hin; simpl in *.
  - contradiction.
  - destruct Hin as [-> | Hin].
    + eapply Qle_trans; [apply fold_Qmin_le_acc | apply Q.le_min_r].
    + now apply IH.
Qed.

Lemma fold_Qmax_ge_acc (xs : list Q) : forall a, a <= fold_left Qmax xs a.
Proof.
  induction xs as [|x xs IH]; intro a; simpl.
  - apply Qle_refl.
  - eapply Qle_trans; [apply Q.le_max_l | apply IH].
Qed.

Lemma fold_Qmax_ge_in (xs : list Q) :
  forall a y, In y xs -> y <= fold_left Qmax xs a.
Proof.
  induction xs as [|x xs IH]; intros a y Hin; simpl in *.
  - contradiction.
  - destruct Hin as [-> | Hin].
    + eapply Qle_trans; [apply Q.le_max_r | apply fold_Qmax_ge_acc].
    + now apply IH.
Qed.

Lemma series_min_le (s : list Q) (x : Q) : In x s -> series_min s <= x.
Proof.
  destruct s as [|a s]; simpl; [contradiction|].
  intros [-> | Hin].
  - apply fold_Qmin_le_acc.
  - now apply fold_Qmin_le_in.
Qed.

Lemma series_max_ge (s : list Q) (x : Q) : In x s -> x <= series_max s.
Proof.
  destruct s as [|a s]; simpl; [contradiction|].
  intros [-> | Hin].
  - apply fold_Qmax_ge_acc.
  - now apply fold_Qmax_ge_in.
Qed.

Lemma series_min_le_max (s : list Q) : series_min s <= series_max s.
Proof.
  destruct s as [|a s].
  - apply Qle_refl.
  - eapply Qle_trans; [apply (series_min_le (a :: s) a) | apply series_max_ge];
      now left.
Qed.

(** ** Ceiling *)

Lemma Qceiling_unique (x : Q) (z : Z) :
  inject_Z (z - 1) < x -> x <= inject_Z z -> Qceiling x = z.
Proof.
  intros Hlo Hhi.
  pose proof (Qle_ceiling x) as Hc1.
  pose proof (Qceiling_lt x) as Hc2.
  assert (H1 : (z - 1 < Qceiling x)%Z).
  { rewrite Zlt_Qlt. eapply Qlt_le_trans; eassumption. }
  assert (H2 : (Qceiling x - 1 < z)%Z).
  { rewrite Zlt_Qlt. eapply Qlt_le_trans; eassumption. }
  lia.
Qed.

Lemma Qceiling_succ (x : Q) : Qceiling (x + 1) = (Qceiling x + 1)%Z.
Proof.
  apply Qceiling_unique.
  - pose proof (Qceiling_lt x) as H.
    replace (Qceiling x + 1 - 1)%Z with (Qceiling x - 1 + 1)%Z by lia.
    rewrite inject_Z_plus. change (inject_Z 1) with 1. lra.
  - pose proof (Qle_ceiling x) as H.
    rewrite inject_Z_plus. change (inject_Z 1) with 1. lra.
Qed.

Lemma Qceiling_nonneg (x : Q) : 0 <= x -> (0 <= Qceiling x)%Z.
Proof.
  intro H. apply Qceiling_resp_le in H. exact H.
Qed.

(** ** [np.arange] and the bin edges *)

Lemma arange_length (a b s : Q) :
  List.length (arange a b s) = arange_len a b s.
Proof.
  unfold arange. now rewrite length_map, length_seq.
Qed.

Lemma arange_nth (a b s : Q) (i : nat) :
  (i < arange_len a b s)%nat ->
  nth i (arange a b s) 0 = a + inject_Z (Z.of_nat i) * s.
Proof.
  intro Hi. unfold arange.
  rewrite (nth_indep _ 0 (a + inject_Z (Z.of_nat 0) * s))
    by now rewrite length_map, length_seq.
  rewrite (map_nth (fun i => a + inject_Z (Z.of_nat i) * s)).
  now rewrite seq_nth.
Qed.

Lemma Qdiv_mult_cancel (a w : Q) : 0 < w -> a / w * w == a.
Proof.
  intro Hw. field. intro H. rewrite H in Hw. now apply Qlt_irrefl in Hw.
Qed.

Lemma Qdiv_nonneg (a w : Q) : 0 <= a -> 0 < w -> 0 <= a / w.
Proof.
  intros Ha Hw. apply Qle_shift_div_l; [exact Hw | lra].
Qed.

Lemma bin_count_inject (rt : list Q) (w : Q) :
  0 < w ->
  inject_Z (Z.of_nat (bin_count rt w))
  = inject_Z (Qceiling ((series_max rt - series_min rt) / w)).
Proof.
  intro Hw. unfold bin_count. rewrite Z2Nat.id; [reflexivity|].
  apply Qceiling_nonneg, Qdiv_nonneg; [|exact Hw].
  pose proof (series_min_le_max rt). lra.
Qed.

Lemma bin_edges_length (rt : list Q) (w : Q) :
  0 < w -> List.length (bin_edges rt w) = S (bin_count rt w).
Proof.
  intro Hw. unfold bin_edges, bin_count.
  rewrite arange_length. unfold arange_len.
  assert (Heq : (series_max rt + w - series_min rt) / w
                == (series_max rt - series_min rt) / w + 1).
  { field. intro H. rewrite H in Hw. now apply Qlt_irrefl in Hw. }
  rewrite (Qceiling_comp _ _ Heq), Qceiling_succ.
  rewrite Z2Nat.inj_add; [simpl; lia | | lia].
  apply Qceiling_nonneg, Qdiv_nonneg; [|exact Hw].
  pose proof (series_min_le_max rt). lra.
Qed.

Lemma bin_edges_nth (rt : list Q) (w : Q) (i : nat) :
  0 < w -> (i <= bin_count rt w)%nat ->
  nth i (bin_edges rt w) 0 = series_min rt + inject_Z (Z.of_nat i) * w.
Proof.
  intros Hw Hi. unfold bin_edges. apply arange_nth.
  rewrite <- arange_length. fold (bin_edges rt w).
  rewrite bin_edges_length by exact Hw. lia.
Qed.

Lemma last_edge_covers_max (rt : list Q) (w : Q) :
  0 < w -> series_max rt <= nth (bin_count rt w) (bin_edges rt w) 0.
Proof.
  intro Hw. rewrite bin_edges_nth by (trivial || lia).
  rewrite bin_count_inject by exact Hw.
  pose proof (Qle_ceiling ((series_max rt - series_min rt) / w)) as Hc.
  apply (Qmult_le_compat_r _ _ w) in Hc; [|lra].
  rewrite Qdiv_mult_cancel in Hc by exact Hw. lra.
Qed.

Lemma inner_edge_below_max (rt : list Q) (w : Q) (i : nat) :
  0 < w -> (i < bin_count rt w)%nat ->
  nth i (bin_edges rt w) 0 < series_max rt.
Proof.
  intros Hw Hi. rewrite bin_edges_nth by (trivial || lia).
  pose proof (Qceiling_lt ((series_max rt - series_min rt) / w)) as Hc.
  assert (Hle : inject_Z (Z.of_nat i)
                <= inject_Z (Qceiling ((series_max rt - series_min rt) / w) - 1)).
  { rewrite <- Zle_Qle. unfold bin_count in Hi. lia. }
  assert (Hlt : inject_Z (Z.of_nat i) < (series_max rt - series_min rt) / w).
  { eapply Qle_lt_trans; eassumption. }
  apply (Qmult_lt_compat_r _ _ w) in Hlt; [|exact Hw].
  rewrite Qdiv_mult_cancel in Hlt by exact Hw. lra.
Qed.

Lemma binned_intensity_length (rt intensity : list Q) (w : Q) :
  0 < w -> List.length (binned_intensity rt intensity w) = bin_count rt w.
Proof.
  intro Hw. unfold binned_intensity.
  rewrite length_map, length_seq, bin_edges_length by exact Hw. lia.
Qed.

(** ** The slider *)

Lemma on_slider_range (w : Q) :
  on_slider w = true -> (5 # 100) <= w /\ w <= 1.
Proof.
  unfold on_slider, slider_values. intro H.
  apply existsb_exists in H. destruct H as [v [Hin Heq]].
  apply Qeq_bool_eq in Heq.
  apply in_map_iff in Hin. destruct Hin as [k [<- Hk]].
  apply in_seq in Hk.
  assert (H1 : inject_Z 1 <= inject_Z (Z.of_nat k)) by (rewrite <- Zle_Qle; lia).
  assert (H2 : inject_Z (Z.of_nat k) <= inject_Z 20) by (rewrite <- Zle_Qle; lia).
  change (inject_Z 1) with 1 in H1. change (inject_Z 20) with 20 in H2.
  rewrite Heq. split; lra.
Qed.

Lemma on_slider_pos (w : Q) : on_slider w = true -> 0 < w.
Proof.
  intro H. apply on_slider_range in H. lra.
Qed.

Lemma bin_edges_last (rt : list Q) (w : Q) :
  0 < w ->
  last (bin_edges rt w) 0
  = series_min rt + inject_Z (Z.of_nat (bin_count rt w)) * w.
Proof.
  intro Hw.
  pose proof (bin_edges_length rt w Hw) as Hlen.
  unfold bin_edges in *. rewrite arange_length in Hlen.
  unfold arange. rewrite Hlen, seq_S, map_app. simpl.
  now rewrite last_last.
Qed.

Lemma bin_edges_last_nth (rt : list Q) (w : Q) :
  0 < w ->
  last (bin_edges rt w) 0 = nth (bin_count rt w) (bin_edges rt w) 0.
Proof.
  intro Hw. rewrite bin_edges_last, bin_edges_nth by (trivial || lia).
  reflexivity.
Qed.

(** ** Normalisation *)

Lemma np_div_nonzero (v t : Q) : ~ t == 0 -> np_div v t = Finite (v / t).
Proof.
  intro Ht. unfold np_div.
  destruct (Qeq_bool t 0) eqn:E; [|reflexivity].
  apply Qeq_bool_eq in E. contradiction.
Qed.

Lemma np_div_zero (v t : Q) : t == 0 -> is_finite (np_div v t) = false.
Proof.
  intro Ht. unfold np_div.
  rewrite (Qeq_eq_bool _ _ Ht).
  destruct (Qeq_bool v 0); [reflexivity|].
  now destruct (Qle_bool 0 v).
Qed.

Lemma np_div_zero_zero (v t : Q) : t == 0 -> v == 0 -> np_div v t = NaN.
Proof.
  intros Ht Hv. unfold np_div.
  now rewrite (Qeq_eq_bool _ _ Ht), (Qeq_eq_bool _ _ Hv).
Qed.

Lemma np_scale_finite (x : npfloat) (c : Q) :
  is_finite (np_scale x c) = is_finite x.
Proof. now destruct x. Qed.

Lemma percent_of_nonzero (t : Q) (l : list Q) :
  ~ t == 0 ->
  map (fun val => np_scale (np_div val t) 100) l
  = map (fun val => Finite (val / t * 100)) l.
Proof.
  intro Ht. apply map_ext. intro v. now rewrite np_div_nonzero.
Qed.

Lemma finite_values_map_Finite (f : Q -> Q) (l : list Q) :
  finite_values (map (fun v => Finite (f v)) l) = map f l.
Proof.
  induction l as [|x l IH]; simpl; [reflexivity | now rewrite IH].
Qed.

Lemma forallb_finite_map_Finite (f : Q -> Q) (l : list Q) :
  forallb is_finite (map (fun v => Finite (f v)) l) = true.
Proof.
  induction l as [|x l IH]; simpl; [reflexivity | exact IH].
Qed.

Lemma relative_intensity_sum (rt intensity : list Q) (w : Q) :
  ~ total_intensity rt intensity w == 0 ->
  forallb is_finite (relative_intensity rt intensity w) = true /\
  Qsum (finite_values (relative_intensity rt intensity w)) == 100.
Proof.
  intro Ht. unfold relative_intensity.
  rewrite percent_of_nonzero by exact Ht.
  split.
  - apply (forallb_finite_map_Finite
             (fun val => val / total_intensity rt intensity w * 100)).
  - rewrite (finite_values_map_Finite
               (fun val => val / total_intensity rt intensity w * 100)).
    rewrite (Qsum_map_scale _ (100 / total_intensity rt intensity w)).
    + fold (total_intensity rt intensity w). now field.
    + intro v. now field.
Qed.

Lemma Qsum_nonneg (l : list Q) :
  (forall v, In v l -> 0 <= v) -> 0 <= Qsum l.
Proof.
  induction l as [|x l IH]; intro H.
  - rewrite Qsum_nil. apply Qle_refl.
  - rewrite Qsum_cons.
    assert (0 <= x) by (apply H; now left).
    assert (0 <= Qsum l) by (apply IH; intros v Hv; apply H; now right).
    lra.
Qed.

Lemma Qsum_ge_member (l : list Q) (v : Q) :
  (forall u, In u l -> 0 <= u) -> In v l -> v <= Qsum l.
Proof.
  induction l as [|x l IH]; intros Hnn Hv; [contradiction|].
  rewrite Qsum_cons.
  assert (Hx : 0 <= x) by (apply Hnn; now left).
  assert (Hl : 0 <= Qsum l)
    by (apply Qsum_nonneg; intros u Hu; apply Hnn; now right).
  destruct Hv as [<- | Hv].
  - lra.
  - assert (v <= Qsum l) by (apply IH; trivial; intros u Hu; apply Hnn; now right).
    lra.
Qed.

Lemma Qsum_zero_all_zero (l : list Q) :
  (forall v, In v l -> 0 <= v) -> Qsum l == 0 -> forall v, In v l -> v == 0.
Proof.
  induction l as [|x l IH]; intros Hnn Hsum v Hv.
  - contradiction.
  - rewrite Qsum_cons in Hsum.
    assert (Hx : 0 <= x) by (apply Hnn; now left).
    assert (Hl : 0 <= Qsum l)
      by (apply Qsum_nonneg; intros u Hu; apply Hnn; now right).
    destruct Hv as [<- | Hv].
    + lra.
    + apply IH; trivial.
      * intros u Hu. apply Hnn. now right.
      * lra.
Qed.

Lemma masked_incl (intensity : list Q) (indices : list nat) (i : nat) (v : Q) :
  In v (masked intensity indices i) -> In v intensity.
Proof.
  unfold masked. intro H.
  apply in_map_iff in H. destruct H as [[v' j] [<- H]].
  apply filter_In in H. destruct H as [H _].
  now apply in_combine_l in H.
Qed.

Lemma binned_intensity_nonneg (rt intensity : list Q) (w : Q) :
  (forall v, In v intensity -> 0 <= v) ->
  forall b, In b (binned_intensity rt intensity w) -> 0 <= b.
Proof.
  intros Hnn b Hb. unfold binned_intensity in Hb.
  apply in_map_iff in Hb. destruct Hb as [i [<- _]].
  unfold masked_sum. apply Qsum_nonneg.
  intros v Hv. apply Hnn. eapply masked_incl. exact Hv.
Qed.

(** C5, as the code has it.  When the bin sums add up to 0 the script
    still divides: the series is kept with one value per bin, no value
    is a finite number, and a bin whose own sum is 0 gets NaN; with
    intensities that are all at least 0 that is every bin. *)
Theorem C5_zero_total_yields_nan (data : list (Q * Q)) (w : Q) :
  total_intensity (col_rt data) (col_intensity data) w == 0 ->
  let rel := relative_intensity (col_rt data) (col_intensity data) w in
  List.length rel
  = List.length (binned_intensity (col_rt data) (col_intensity data) w) /\
  (forall y, In y rel -> is_finite y = false) /\
  ((forall v, In v (col_intensity data) -> 0 <= v) ->
   forall y, In y rel -> y = NaN).
Proof.
  intros Ht rel. subst rel. unfold relative_intensity.
  split; [apply length_map|]. split.
  - intros y Hy. apply in_map_iff in Hy. destruct Hy as [v [<- _]].
    rewrite np_scale_finite. now apply np_div_zero.
  - intros Hnn y Hy. apply in_map_iff in Hy. destruct Hy as [v [<- Hv]].
    rewrite np_div_zero_zero; trivial.
    apply (Qsum_zero_all_zero
             (binned_intensity (col_rt data) (col_intensity data) w)); trivial.
    now apply binned_intensity_nonneg.
Qed.

Lemma C5_zero_total_yields_nan_witness :
  let data := [(0, 0); (3 # 2, 0)] in
  let rel := relative_intensity (col_rt data) (col_intensity data) 1 in
  List.length rel
  = List.length (binned_intensity (col_rt data) (col_intensity data) 1) /\
  (forall y, In y rel -> is_finite y = false) /\
  ((forall v, In v (col_intensity data) -> 0 <= v) ->
   forall y, In y rel -> y = NaN).
Proof.
  apply (C5_zero_total_yields_nan [(0, 0); (3 # 2, 0)] 1).
  vm_compute. reflexivity.
Defined.

(** Two peaks of intensity 0, at 0 and 1.5 minutes, width 1.0: two
    bins, total 0, and both relative intensities are NaN. *)
Lemma C5_counterexample :
  let data := [(0, 0); (3 # 2, 0)] in
  let w := 1 in
  on_slider w = true /\
  total_intensity (col_rt data) (col_intensity data) w == 0 /\
  List.length (binned_intensity (col_rt data) (col_intensity data) w) = 2%nat /\
  relative_intensity (col_rt data) (col_intensity data) w = [NaN; NaN] /\
  forallb is_finite (relative_intensity (col_rt data) (col_intensity data) w)
  = false.
Proof.
  vm_compute. repeat split; reflexivity.
Qed.

(** ** Which bin a point falls into *)

Lemma searchsorted_right_spec (bins : list Q) (x : Q) :
  (searchsorted_right bins x <= List.length bins)%nat /\
  (forall i, (i < searchsorted_right bins x)%nat -> nth i bins 0 <= x) /\
  ((searchsorted_right bins x < List.length bins)%nat ->
   x < nth (searchsorted_right bins x) bins 0).
Proof.
  induction bins as [|e bins [IH1 [IH2 IH3]]]; simpl.
  - split; [lia | split; intros; lia].
  - destruct (Qle_bool e x) eqn:E.
    + apply Qle_bool_iff in E. split; [lia | split].
      * intros [|i] Hi; [exact E | apply IH2; lia].
      * intro H. apply IH3. lia.
    + split; [lia | split].
      * intros i Hi. lia.
      * intros _. apply Qnot_le_lt. intro H.
        apply Qle_bool_iff in H. congruence.
Qed.

Lemma searchsorted_right_all_le (bins : list Q) (x : Q) :
  (forall e, In e bins -> e <= x) ->
  searchsorted_right bins x = List.length bins.
Proof.
  induction bins as [|e bins IH]; intro H; simpl; [reflexivity|].
  assert (He : Qle_bool e x = true) by (apply Qle_bool_iff, H; now left).
  rewrite He, IH; [reflexivity|]. intros e' He'. apply H. now right.
Qed.

Lemma bin_edges_le_last (rt : list Q) (w : Q) (e : Q) :
  0 < w -> In e (bin_edges rt w) -> e <= last (bin_edges rt w) 0.
Proof.
  intros Hw He.
  apply (In_nth _ _ 0) in He. destruct He as [i [Hi <-]].
  rewrite bin_edges_length in Hi by exact Hw.
  rewrite bin_edges_last, bin_edges_nth by (trivial || lia).
  assert (H : inject_Z (Z.of_nat i) <= inject_Z (Z.of_nat (bin_count rt w)))
    by (rewrite <- Zle_Qle; lia).
  apply (Qmult_le_compat_r _ _ w) in H; lra.
Qed.

(** A point below the last edge gets an index between 1 and the number
    of bins, and lies in that bin's half-open interval. *)
Lemma point_below_last_edge_in_a_bin (rt : list Q) (w x : Q) :
  0 < w -> In x rt -> x < last (bin_edges rt w) 0 ->
  let k := searchsorted_right (bin_edges rt w) x in
  In k (seq 1 (List.length (bin_edges rt w) - 1)) /\
  nth (k - 1) (bin_edges rt w) 0 <= x /\
  x < nth k (bin_edges rt w) 0.
Proof.
  intros Hw Hin Hlt k.
  destruct (searchsorted_right_spec (bin_edges rt w) x) as [H1 [H2 H3]].
  fold k in H1, H2, H3.
  pose proof (bin_edges_length rt w Hw) as Hlen.
  assert (Hk1 : (1 <= k)%nat).
  { subst k. destruct (bin_edges rt w) as [|e es] eqn:E; [discriminate|].
    simpl.
    assert (He : e = series_min rt + inject_Z (Z.of_nat 0) * w).
    { rewrite <- (bin_edges_nth rt w 0 Hw (Nat.le_0_l _)). now rewrite E. }
    assert (Hle : Qle_bool e x = true).
    { apply Qle_bool_iff. rewrite He. change (inject_Z (Z.of_nat 0)) with 0.
      pose proof (series_min_le rt x Hin). lra. }
    rewrite Hle. lia. }
  assert (Hk2 : (k <= bin_count rt w)%nat).
  { destruct (Nat.le_gt_cases k (bin_count rt w)) as [Hle | Hgt]; [exact Hle|].
    exfalso. rewrite bin_edges_last_nth in Hlt by exact Hw.
    specialize (H2 (bin_count rt w) Hgt). lra. }
  repeat split.
  - apply in_seq. lia.
  - apply H2. lia.
  - apply H3. lia.
Qed.

(** A point at or above the last edge gets the index [len(bin_edges)],
    which [range(1, len(bin_edges))] does not reach. *)
Lemma point_at_last_edge_in_no_bin (rt : list Q) (w x : Q) :
  0 < w -> last (bin_edges rt w) 0 <= x ->
  searchsorted_right (bin_edges rt w) x = List.length (bin_edges rt w) /\
  ~ In (searchsorted_right (bin_edges rt w) x)
       (seq 1 (List.length (bin_edges rt w) - 1)).
Proof.
  intros Hw Hle.
  assert (H : searchsorted_right (bin_edges rt w) x
              = List.length (bin_edges rt w)).
  { apply searchsorted_right_all_le. intros e He.
    eapply Qle_trans; [apply bin_edges_le_last; eassumption | exact Hle]. }
  split; [exact H|].
  rewrite H. intro Hin. apply in_seq in Hin.
  rewrite bin_edges_length in Hin by exact Hw. lia.
Qed.

(** When the range of the series is a whole number of widths, the last
    edge is [max(rt)] itself, so the latest peak is in no bin. *)
Lemma latest_peak_dropped_on_whole_multiple (rt : list Q) (w : Q) (k : nat) :
  0 < w ->
  series_max rt - series_min rt == inject_Z (Z.of_nat k) * w ->
  last (bin_edges rt w) 0 == series_max rt /\
  ~ In (searchsorted_right (bin_edges rt w) (series_max rt))
       (seq 1 (List.length (bin_edges rt w) - 1)).
Proof.
  intros Hw Hk.
  assert (Hcount : bin_count rt w = k).
  { unfold bin_count.
    assert (Hq : (series_max rt - series_min rt) / w == inject_Z (Z.of_nat k)).
    { rewrite Hk. field. intro H. rewrite H in Hw. now apply Qlt_irrefl in Hw. }
    rewrite (Qceiling_comp _ _ Hq), Qceiling_Z. apply Nat2Z.id. }
  assert (Hlast : last (bin_edges rt w) 0 == series_max rt).
  { rewrite bin_edges_last by exact Hw. rewrite Hcount. lra. }
  split; [exact Hlast|].
  apply point_at_last_edge_in_no_bin; [exact Hw|].
  rewrite Hlast. apply Qle_refl.
Qed.

(** ** What the bin sums add up to *)

Lemma Qsum_map_ext {A : Type} (f g : A -> Q) (l : list A) :
  (forall a, f a == g a) -> Qsum (map f l) == Qsum (map g l).
Proof.
  intro H. induction l as [|a l IH]; simpl.
  - reflexivity.
  - now rewrite !Qsum_cons, IH, H.
Qed.

Lemma Qsum_map_plus {A : Type} (f g : A -> Q) (l : list A) :
  Qsum (map (fun a => f a + g a) l) == Qsum (map f l) + Qsum (map g l).
Proof.
  induction l as [|a l IH]; simpl.
  - rewrite Qsum_nil. ring.
  - rewrite !Qsum_cons, IH. ring.
Qed.

Lemma Qsum_indicator (l : list nat) (j : nat) (v : Q) :
  NoDup l ->
  Qsum (map (fun i => if Nat.eqb j i then v else 0) l)
  == if existsb (Nat.eqb j) l then v else 0.
Proof.
  induction 1 as [|a l Hnotin Hnodup IH]; simpl.
  - reflexivity.
  - rewrite Qsum_cons, IH.
    destruct (Nat.eqb j a) eqn:E; simpl.
    + apply Nat.eqb_eq in E. subst a.
      destruct (existsb (Nat.eqb j) l) eqn:E'.
      * apply existsb_exists in E'. destruct E' as [i [Hi Hji]].
        apply Nat.eqb_eq in Hji. subst i. contradiction.
      * ring.
    + ring.
Qed.

Lemma masked_sum_cons (v : Q) (intensity : list Q) (j : nat) (indices : list nat)
    (i : nat) :
  masked_sum (v :: intensity) (j :: indices) i
  == (if Nat.eqb j i then v else 0) + masked_sum intensity indices i.
Proof.
  unfold masked_sum, masked. simpl.
  destruct (Nat.eqb j i); simpl.
  - apply Qsum_cons.
  - ring.
Qed.

Lemma masked_sums_no_rows (intensity : list Q) (indices l : list nat) :
  combine intensity indices = [] ->
  Qsum (map (masked_sum intensity indices) l) == 0.
Proof.
  intro H. induction l as [|a l IH]; simpl.
  - reflexivity.
  - rewrite Qsum_cons, IH. unfold masked_sum, masked. rewrite H. simpl.
    rewrite Qsum_nil. ring.
Qed.

(** The bin sums over the bins [l] add up to the intensities of the
    points whose index is one of [l]: a point is counted once, in the
    bin of its index, or not at all. *)
Lemma binned_total (intensity : list Q) (indices l : list nat) :
  NoDup l ->
  Qsum (map (masked_sum intensity indices) l)
  == Qsum (map fst (filter (fun p => existsb (Nat.eqb (snd p)) l)
                           (combine intensity indices))).
Proof.
  intro Hl. revert indices.
  induction intensity as [|v intensity IH]; intros indices.
  - now rewrite masked_sums_no_rows.
  - destruct indices as [|j indices].
    + now rewrite masked_sums_no_rows.
    + rewrite (Qsum_map_ext _ _ l (masked_sum_cons v intensity j indices)).
      rewrite (Qsum_map_plus (fun i => if Nat.eqb j i then v else 0)
                             (masked_sum intensity indices)).
      rewrite Qsum_indicator by exact Hl. rewrite IH.
      simpl. destruct (existsb (Nat.eqb j) l); simpl.
      * now rewrite Qsum_cons.
      * ring.
Qed.

Lemma filter_all {A : Type} (f : A -> bool) (l : list A) :
  (forall a, In a l -> f a = true) -> filter f l = l.
Proof.
  induction l as [|a l IH]; intro H; simpl; [reflexivity|].
  rewrite H by now left. f_equal. apply IH. intros b Hb. apply H. now right.
Qed.

Lemma combine_columns_fst {A : Type} (g : Q -> A) (data : list (Q * Q)) :
  map fst (combine (map snd data) (map g (map fst data))) = map snd data.
Proof.
  induction data as [|p data IH]; simpl; [reflexivity | now rewrite IH].
Qed.

(** When every point is below the last edge, each one is counted in
    exactly one bin and the bin sums add up to the whole intensity. *)
Lemma all_points_binned_total (data : list (Q * Q)) (w : Q) :
  0 < w ->
  (forall x, In x (col_rt data) -> x < last (bin_edges (col_rt data) w) 0) ->
  total_intensity (col_rt data) (col_intensity data) w
  == Qsum (col_intensity data).
Proof.
  intros Hw Hbelow. unfold total_intensity, binned_intensity.
  rewrite binned_total by apply seq_NoDup.
  rewrite filter_all.
  - unfold bin_indices, digitize, col_intensity, col_rt.
    now rewrite combine_columns_fst.
  - intros [v j] Hin. simpl.
    apply in_combine_r in Hin. unfold bin_indices, digitize in Hin.
    apply in_map_iff in Hin. destruct Hin as [x [<- Hx]].
    apply existsb_exists.
    exists (searchsorted_right (bin_edges (col_rt data) w) x).
    split; [|apply Nat.eqb_refl].
    apply point_below_last_edge_in_a_bin; auto.
Qed.

(** C3, evaluated on the peaks at 0 and 2 minutes with width 1.0.  The
    edges are 0, 1 and 2; the peak at 2 minutes gets the index 3, which
    is none of the bins 1 and 2; the bin sums are 10 and 0, and their
    total, 10, misses the 20 of that peak. *)
Theorem C3_latest_peak_in_no_bin :
  let data := [(0, 10); (2, 20)] in
  let w := 1 in
  on_slider w = true /\
  bin_edges (col_rt data) w = [0; 1; 2] /\
  bin_indices (col_rt data) w = [1%nat; 3%nat] /\
  seq 1 (List.length (bin_edges (col_rt data) w) - 1) = [1%nat; 2%nat] /\
  ~ In 3%nat (seq 1 (List.length (bin_edges (col_rt data) w) - 1)) /\
  binned_intensity (col_rt data) (col_intensity data) w = [10; 0] /\
  total_intensity (col_rt data) (col_intensity data) w == 10 /\
  Qsum (col_intensity data) == 30.
Proof.
  repeat split; try (vm_compute; reflexivity).
  vm_compute. intros [H | [H | []]]; discriminate.
Qed.

(** ** The five fixed ranges *)

Lemma pd_cut_bins (x : Q) :
  pd_cut x bins bin_labels
  = if in_range 0 (At 20) x then Some "0-20 min"%string
    else if in_range 20 (At 40) x then Some "20-40 min"%string
    else if in_range 40 (At 60) x then Some "40-60 min"%string
    else if in_range 60 (At 80) x then Some "60-80 min"%string
    else if in_range 80 Infinity x then Some "80+ min"%string
    else None.
Proof. reflexivity. Qed.

Lemma Qle_bool_false (a b : Q) : Qle_bool a b = false -> b < a.
Proof.
  intro H. apply Qnot_le_lt. intro Hle.
  apply Qle_bool_iff in Hle. congruence.
Qed.

Ltac range_cases x :=
  unfold has_label; rewrite pd_cut_bins; unfold in_range, edge_le;
  destruct (Qle_bool 0 x) eqn:E0; destruct (Qle_bool 20 x) eqn:E20;
  destruct (Qle_bool 40 x) eqn:E40; destruct (Qle_bool 60 x) eqn:E60;
  destruct (Qle_bool 80 x) eqn:E80; simpl; try reflexivity;
  repeat match goal with
         | H : Qle_bool _ _ = true |- _ => apply Qle_bool_iff in H
         | H : Qle_bool _ _ = false |- _ => apply Qle_bool_false in H
         end;
  exfalso; lra.

Lemma has_label_0_20 (x : Q) : has_label "0-20 min" x = in_range 0 (At 20) x.
Proof. range_cases x. Qed.

Lemma has_label_20_40 (x : Q) : has_label "20-40 min" x = in_range 20 (At 40) x.
Proof. range_cases x. Qed.

Lemma has_label_40_60 (x : Q) : has_label "40-60 min" x = in_range 40 (At 60) x.
Proof. range_cases x. Qed.

Lemma has_label_60_80 (x : Q) : has_label "60-80 min" x = in_range 60 (At 80) x.
Proof. range_cases x. Qed.

Lemma has_label_80_up (x : Q) : has_label "80+ min" x = in_range 80 Infinity x.
Proof. range_cases x. Qed.

Lemma group_by_range (c : string) (sel : Q -> bool) :
  (forall x, has_label c x = sel x) ->
  forall rt intensity,
    group (RT_range rt) intensity c
    = map snd (filter (fun p => sel (fst p)) (combine rt intensity)).
Proof.
  intros Hsel rt. unfold group, RT_range.
  induction rt as [|x rt IH]; intros [|v intensity];
    cbn [map combine filter fst snd]; try reflexivity.
  rewrite <- Hsel. unfold has_label.
  destruct (pd_cut x bins bin_labels) as [k|].
  - destruct (String.eqb k c); cbn [map snd]; now rewrite IH.
  - apply IH.
Qed.

Lemma series_get_absent (observed : bool) (cats : list string)
    (keys : list (option string)) (vals : list Q) (c : string) :
  ~ In c cats -> series_get (groupby_sum observed cats keys vals) c = None.
Proof.
  unfold groupby_sum.
  induction cats as [|a cats IH]; intro Hnotin; simpl; [reflexivity|].
  destruct (negb observed || negb (Nat.eqb (List.length (group keys vals a)) 0));
    simpl.
  - destruct (String.eqb_spec a c) as [-> | Hne].
    + exfalso. apply Hnotin. now left.
    + apply IH. intro H. apply Hnotin. now right.
  - apply IH. intro H. apply Hnotin. now right.
Qed.

(** After [reindex], the value under a category is the sum of its
    group, whether or not [groupby] had a row for it. *)
Lemma series_get_groupby (observed : bool) (cats : list string)
    (keys : list (option string)) (vals : list Q) (c : string) :
  NoDup cats -> In c cats ->
  match series_get (groupby_sum observed cats keys vals) c with
  | Some v => v
  | None => 0
  end = Qsum (group keys vals c).
Proof.
  intros Hnodup. induction Hnodup as [|a cats Hnotin Hnodup IH]; intro Hin.
  - contradiction.
  - unfold groupby_sum in *. simpl.
    destruct (negb observed || negb (Nat.eqb (List.length (group keys vals a)) 0))
      eqn:Ekeep; simpl.
    + destruct (String.eqb_spec a c) as [-> | Hne]; [reflexivity|].
      apply IH. destruct Hin as [H | H]; [contradiction | exact H].
    + destruct (String.eqb_spec a c) as [<- | Hne].
      * fold (groupby_sum observed cats keys vals).
        rewrite series_get_absent by exact Hnotin.
        apply orb_false_iff in Ekeep. destruct Ekeep as [_ Elen].
        apply negb_false_iff, Nat.eqb_eq in Elen.
        destruct (group keys vals a); [reflexivity | discriminate].
      * apply IH. destruct Hin as [H | H]; [contradiction | exact H].
Qed.

Lemma bin_labels_NoDup : NoDup bin_labels.
Proof.
  unfold bin_labels.
  repeat (constructor; [simpl; intuition discriminate|]).
  constructor.
Qed.

Lemma intensity_sum_groups (observed : bool) (rt intensity : list Q) :
  intensity_sum observed rt intensity
  = map (fun c => (c, Qsum (group (RT_range rt) intensity c))) bin_labels.
Proof.
  unfold intensity_sum, reindex.
  apply map_ext_in. intros c Hc. f_equal.
  apply series_get_groupby; [apply bin_labels_NoDup | exact Hc].
Qed.

Lemma intensity_sum_ranges (observed : bool) (rt intensity : list Q) :
  intensity_sum observed rt intensity
  = [("0-20 min"%string, range_sum 0 (At 20) rt intensity);
     ("20-40 min"%string, range_sum 20 (At 40) rt intensity);
     ("40-60 min"%string, range_sum 40 (At 60) rt intensity);
     ("60-80 min"%string, range_sum 60 (At 80) rt intensity);
     ("80+ min"%string, range_sum 80 Infinity rt intensity)].
Proof.
  rewrite intensity_sum_groups. unfold bin_labels, range_sum. simpl.
  rewrite (group_by_range _ _ has_label_0_20),
          (group_by_range _ _ has_label_20_40),
          (group_by_range _ _ has_label_40_60),
          (group_by_range _ _ has_label_60_80),
          (group_by_range _ _ has_label_80_up).
  reflexivity.
Qed.

Lemma range_sum_empty (lo : Q) (hi : edge) (rt intensity : list Q) :
  (forall x, In x rt -> in_range lo hi x = false) ->
  range_sum lo hi rt intensity = 0.
Proof.
  intro H. unfold range_sum.
  replace (filter (fun p => in_range lo hi (fst p)) (combine rt intensity))
    with (@nil (Q * Q)); [reflexivity|].
  symmetry. revert intensity.
  induction rt as [|x rt IH]; intros [|v intensity]; simpl; try reflexivity.
  rewrite H by now left. apply IH. intros y Hy. apply H. now right.
Qed.

(** C4.  Whatever the series, the range sums come back as five entries
    under the five labels in their fixed order; each value is the plain
    sum of the intensities whose retention time lies in its range, 0
    when no point does; and the pie chart takes the labels and values in
    that order with sorting switched off. *)
Theorem C4_five_buckets_in_fixed_order (observed : bool) (data : list (Q * Q))
    (sample_name f : string) :
  let rt := col_rt data in
  let intensity := col_intensity data in
  let sums := intensity_sum observed rt intensity in
  List.length sums = 5%nat /\
  map fst sums
  = ["0-20 min"; "20-40 min"; "40-60 min"; "60-80 min"; "80+ min"]%string /\
  map snd sums
  = [range_sum 0 (At 20) rt intensity;
     range_sum 20 (At 40) rt intensity;
     range_sum 40 (At 60) rt intensity;
     range_sum 60 (At 80) rt intensity;
     range_sum 80 Infinity rt intensity] /\
  (forall lo hi, (forall x, In x rt -> in_range lo hi x = false) ->
                 range_sum lo hi rt intensity = 0) /\
  pie_labels (make_pie observed sample_name f rt intensity) = map fst sums /\
  pie_values (make_pie observed sample_name f rt intensity) = map snd sums /\
  pie_sort (make_pie observed sample_name f rt intensity) = false.
Proof.
  intros rt intensity sums. subst sums.
  unfold make_pie. cbn [pie_labels pie_values pie_sort].
  rewrite intensity_sum_ranges.
  repeat split.
  intros lo hi H. now apply range_sum_empty.
Qed.

Lemma range_sum_cons (lo : Q) (hi : edge) (x v : Q) (rt intensity : list Q) :
  range_sum lo hi (x :: rt) (v :: intensity)
  == (if in_range lo hi x then v else 0) + range_sum lo hi rt intensity.
Proof.
  unfold range_sum. cbn [combine filter fst].
  destruct (in_range lo hi x); cbn [map snd].
  - apply Qsum_cons.
  - ring.
Qed.

Lemma one_range_per_point (x v : Q) :
  0 <= x ->
  (if in_range 0 (At 20) x then v else 0)
  + (if in_range 20 (At 40) x then v else 0)
  + (if in_range 40 (At 60) x then v else 0)
  + (if in_range 60 (At 80) x then v else 0)
  + (if in_range 80 Infinity x then v else 0) == v.
Proof.
  intro Hx. unfold in_range, edge_le.
  destruct (Qle_bool 0 x) eqn:E0; destruct (Qle_bool 20 x) eqn:E20;
  destruct (Qle_bool 40 x) eqn:E40; destruct (Qle_bool 60 x) eqn:E60;
  destruct (Qle_bool 80 x) eqn:E80; simpl; try ring;
  repeat match goal with
         | H : Qle_bool _ _ = true |- _ => apply Qle_bool_iff in H
         | H : Qle_bool _ _ = false |- _ => apply Qle_bool_false in H
         end;
  exfalso; lra.
Qed.

Lemma pd_cut_nonneg (x : Q) :
  0 <= x -> exists c, In c bin_labels /\ pd_cut x bins bin_labels = Some c.
Proof.
  intro Hx. rewrite pd_cut_bins.
  destruct (in_range 0 (At 20) x) eqn:R1;
    [eexists; split; [|reflexivity]; simpl; tauto|].
  destruct (in_range 20 (At 40) x) eqn:R2;
    [eexists; split; [|reflexivity]; simpl; tauto|].
  destruct (in_range 40 (At 60) x) eqn:R3;
    [eexists; split; [|reflexivity]; simpl; tauto|].
  destruct (in_range 60 (At 80) x) eqn:R4;
    [eexists; split; [|reflexivity]; simpl; tauto|].
  destruct (in_range 80 Infinity x) eqn:R5;
    [eexists; split; [|reflexivity]; simpl; tauto|].
  exfalso.
  pose proof (one_range_per_point x 1 Hx) as H.
  rewrite R1, R2, R3, R4, R5 in H. discriminate.
Qed.

Lemma five_ranges_total (data : list (Q * Q)) :
  (forall x, In x (col_rt data) -> 0 <= x) ->
  range_sum 0 (At 20) (col_rt data) (col_intensity data)
  + range_sum 20 (At 40) (col_rt data) (col_intensity data)
  + range_sum 40 (At 60) (col_rt data) (col_intensity data)
  + range_sum 60 (At 80) (col_rt data) (col_intensity data)
  + range_sum 80 Infinity (col_rt data) (col_intensity data)
  == Qsum (col_intensity data).
Proof.
  induction data as [|[x v] data IH]; intro Hnn.
  - reflexivity.
  - unfold col_rt, col_intensity in *. cbn [map fst snd] in *.
    rewrite !range_sum_cons, Qsum_cons.
    rewrite <- IH by (intros y Hy; apply Hnn; now right).
    rewrite <- (one_range_per_point x v) at 6 by (apply Hnn; now left).
    ring.
Qed.

(** ** The fetch loop *)

Lemma loop_body_failure (env : Env) (f : string) (st : Page) :
  fetch_ok env f = false ->
  loop_body env f st
  = inr {| fig := fig st;
           pie_charts := pie_charts st;
           warnings := warnings st ++ [sample_warning env f] |}.
Proof.
  unfold fetch_ok, response_of, loop_body. intro H. now rewrite H.
Qed.

Lemma loop_body_success (env : Env) (f : string) (st : Page) :
  fetch_ok env f = true ->
  has_peak_columns (json (response_of env f)) = true ->
  loop_body env f st
  = inr {| fig := fig st ++ [sample_trace env f];
           pie_charts := pie_charts st ++ [sample_pie env f];
           warnings := warnings st |}.
Proof.
  unfold fetch_ok, has_peak_columns, loop_body, getitem.
  intros Hok Hcols. apply andb_true_iff in Hcols. destruct Hcols as [Hrt Hint].
  unfold response_of in *. rewrite Hok. cbn zeta.
  rewrite Hrt. cbn [bind]. rewrite Hint. reflexivity.
Qed.

Lemma loop_body_missing_column (env : Env) (f : string) (st : Page) :
  fetch_ok env f = true ->
  has_peak_columns (json (response_of env f)) = false ->
  loop_body env f st
  = inl (KeyError (if has_column (json (response_of env f)) "rt"
                   then "intensity" else "rt")%string).
Proof.
  unfold fetch_ok, has_peak_columns, loop_body, getitem.
  intros Hok Hcols. unfold response_of in *. rewrite Hok. cbn zeta.
  destruct (has_column _ "rt") eqn:Hrt; cbn [bind].
  - simpl in Hcols. now rewrite Hcols.
  - reflexivity.
Qed.

Lemma for_each_fid_app (env : Env) (l1 l2 : list string) (st : Page) :
  for_each_fid env (l1 ++ l2) st
  = match for_each_fid env l1 st with
    | Finished st' => for_each_fid env l2 st'
    | Raised e st' => Raised e st'
    end.
Proof.
  revert st. induction l1 as [|f l1 IH]; intro st; simpl.
  - reflexivity.
  - destruct (loop_body env f st); [reflexivity | apply IH].
Qed.

(** A run over samples whose successful fetches all carry both columns
    ends normally: a trace and a pie for each successful fetch, a
    warning for each failed one, each in selection order. *)
Lemma for_each_fid_finishes (env : Env) (fids : list string) :
  (forall f, In f fids -> fetch_ok env f = true ->
             has_peak_columns (json (response_of env f)) = true) ->
  forall st,
    for_each_fid env fids st
    = Finished
        {| fig := fig st ++ map (sample_trace env) (filter (fetch_ok env) fids);
           pie_charts := pie_charts st
                         ++ map (sample_pie env) (filter (fetch_ok env) fids);
           warnings := warnings st
                       ++ map (sample_warning env)
                              (filter (fun f => negb (fetch_ok env f)) fids) |}.
Proof.
  induction fids as [|f fids IH]; intros Hwf st.
  - simpl. rewrite !app_nil_r. now destruct st.
  - cbn [for_each_fid filter].
    assert (Hwf' : forall g, In g fids -> fetch_ok env g = true ->
                             has_peak_columns (json (response_of env g)) = true)
      by (intros g Hg; apply Hwf; now right).
    destruct (fetch_ok env f) eqn:Hok.
    + rewrite loop_body_success by (trivial; apply Hwf; trivial; now left).
      rewrite IH by exact Hwf'. cbn [fig pie_charts warnings negb map].
      now rewrite <- !app_assoc.
    + rewrite loop_body_failure by exact Hok.
      rewrite IH by exact Hwf'. cbn [fig pie_charts warnings negb map].
      now rewrite <- !app_assoc.
Qed.

Lemma fetch_warning_names_sample (f : string) (code : Z) :
  names_sample (fetch_warning f code) f.
Proof.
  unfold names_sample, fetch_warning.
  exists "サンプルID "%string,
         (" のデータ取得に失敗しました: " ++ string_of_Z code)%string.
  reflexivity.
Qed.

Lemma non_success_is_not_ok (env : Env) (f : string) :
  http_success (status_code (response_of env f)) = false ->
  fetch_ok env f = false.
Proof.
  unfold http_success, fetch_ok. intro H.
  apply Z.eqb_neq. intro Heq. rewrite Heq in H. discriminate.
Qed.

(** C7.  In a run where every successful fetch carries both columns,
    the loop ends normally whatever the other status codes are: a
    sample whose fetch is not a success gets a warning that names its
    id, and no trace and no pie; the others get theirs, in selection
    order.  So three selected samples of which one fails give two
    traces, two pies and one warning. *)
Theorem C7_failed_fetch_warns_and_continues (env : Env) (fids : list string) :
  fids <> [] ->
  (forall f, In f fids -> fetch_ok env f = true ->
             has_peak_columns (json (response_of env f)) = true) ->
  exists st,
    on_confirm env fids = Finished st /\
    fig st = map (sample_trace env) (filter (fetch_ok env) fids) /\
    pie_charts st = map (sample_pie env) (filter (fetch_ok env) fids) /\
    warnings st
    = map (sample_warning env) (filter (fun f => negb (fetch_ok env f)) fids) /\
    (forall f, In f fids ->
               http_success (status_code (response_of env f)) = false ->
               negb (fetch_ok env f) = true /\
               In (sample_warning env f) (warnings st) /\
               names_sample (sample_warning env f) f) /\
    (List.length fids = 3%nat ->
     List.length (filter (fun f => negb (fetch_ok env f)) fids) = 1%nat ->
     List.length (fig st) = 2%nat /\
     List.length (pie_charts st) = 2%nat /\
     List.length (warnings st) = 1%nat).
Proof.
  intros Hne Hwf.
  eexists. split.
  - unfold on_confirm. destruct fids as [|f fids]; [contradiction|].
    apply for_each_fid_finishes. exact Hwf.
  - cbn [fig pie_charts warnings empty_page app].
    split; [reflexivity|]. split; [reflexivity|]. split; [reflexivity|].
    split.
    + intros f Hin Hcode.
      apply non_success_is_not_ok in Hcode.
      split; [now rewrite Hcode|]. split.
      * apply in_map, filter_In. split; [exact Hin | now rewrite Hcode].
      * apply fetch_warning_names_sample.
    + intros Hthree Hone.
      pose proof (filter_length (fetch_ok env) fids) as Hsplit.
      rewrite !length_map. lia.
Qed.

Lemma C7_failed_fetch_warns_and_continues_witness :
  let env := demo_env service_failing_F2 in
  let fids := ["F1"; "F2"; "F3"]%string in
  status_code (response_of env "F2") = 500%Z /\
  exists st,
    on_confirm env fids = Finished st /\
    fig st = map (sample_trace env) (filter (fetch_ok env) fids) /\
    pie_charts st = map (sample_pie env) (filter (fetch_ok env) fids) /\
    warnings st
    = map (sample_warning env) (filter (fun f => negb (fetch_ok env f)) fids) /\
    (forall f, In f fids ->
               http_success (status_code (response_of env f)) = false ->
               negb (fetch_ok env f) = true /\
               In (sample_warning env f) (warnings st) /\
               names_sample (sample_warning env f) f) /\
    (List.length fids = 3%nat ->
     List.length (filter (fun f => negb (fetch_ok env f)) fids) = 1%nat ->
     List.length (fig st) = 2%nat /\
     List.length (pie_charts st) = 2%nat /\
     List.length (warnings st) = 1%nat).
Proof.
  split; [reflexivity|].
  apply (C7_failed_fetch_warns_and_continues
           (demo_env service_failing_F2) ["F1"; "F2"; "F3"]%string).
  - discriminate.
  - intros f [<- | [<- | [<- | []]]] H; vm_compute in H |- *;
      first [reflexivity | discriminate].
Defined.

(** C8, as the code has it.  When a fetch succeeds but its payload has
    no [rt] column, or no [intensity] column, the loop body raises
    [KeyError] for that column.  Nothing catches it: the run stops at
    that sample with the page as the samples before it left it, so there
    is no warning for the sample and the samples after it are not
    fetched. *)
Theorem C8_missing_column_raises (env : Env) (before after : list string)
    (f : string) :
  (forall g, In g before -> fetch_ok env g = true ->
             has_peak_columns (json (response_of env g)) = true) ->
  fetch_ok env f = true ->
  has_peak_columns (json (response_of env f)) = false ->
  exists key st,
    on_confirm env (before ++ f :: after)%list = Raised (KeyError key) st /\
    key = (if has_column (json (response_of env f)) "rt"
           then "intensity" else "rt")%string /\
    fig st = map (sample_trace env) (filter (fetch_ok env) before) /\
    pie_charts st = map (sample_pie env) (filter (fetch_ok env) before) /\
    warnings st
    = map (sample_warning env) (filter (fun g => negb (fetch_ok env g)) before).
Proof.
  intros Hwf Hok Hcols.
  eexists. eexists. split.
  - unfold on_confirm.
    destruct (before ++ f :: after)%list as [|h t] eqn:E.
    + symmetry in E. now apply app_cons_not_nil in E.
    + rewrite <- E. rewrite for_each_fid_app.
      rewrite for_each_fid_finishes by exact Hwf.
      cbn [for_each_fid]. rewrite loop_body_missing_column by assumption.
      reflexivity.
  - cbn [fig pie_charts warnings empty_page app]. repeat split.
Qed.

Lemma C8_missing_column_raises_witness :
  let env := demo_env service_malformed_F2 in
  exists key st,
    on_confirm env (["F1"%string] ++ "F2"%string :: ["F3"%string])%list = Raised (KeyError key) st /\
    key = (if has_column (json (response_of env "F2")) "rt"
           then "intensity" else "rt")%string /\
    fig st = map (sample_trace env) (filter (fetch_ok env) ["F1"%string]) /\
    pie_charts st = map (sample_pie env) (filter (fetch_ok env) ["F1"%string]) /\
    warnings st
    = map (sample_warning env)
          (filter (fun g => negb (fetch_ok env g)) ["F1"%string]).
Proof.
  apply (C8_missing_column_raises (demo_env service_malformed_F2)
                                  ["F1"%string] ["F3"%string] "F2"%string).
  - intros g [<- | []] _. vm_compute. reflexivity.
  - vm_compute. reflexivity.
  - vm_compute. reflexivity.
Defined.

(** Three samples selected; the payload of F2 has no [rt] field.  The
    run does not finish: it raises [KeyError 'rt'] after the first
    sample, with no warning on the page and one trace drawn. *)
Lemma C8_counterexample :
  let env := demo_env service_malformed_F2 in
  let fids := ["F1"; "F2"; "F3"]%string in
  status_code (response_of env "F2") = 200%Z /\
  has_column (json (response_of env "F2")) "rt" = false /\
  (forall st, on_confirm env fids <> Finished st) /\
  exists st,
    on_confirm env fids = Raised (KeyError "rt") st /\
    warnings st = [] /\
    List.length (fig st) = 1%nat /\
    List.length (pie_charts st) = 1%nat.
Proof.
  assert (H : exists st,
             on_confirm (demo_env service_malformed_F2) ["F1"; "F2"; "F3"]%string
             = Raised (KeyError "rt") st /\
             warnings st = [] /\
             List.length (fig st) = 1%nat /\
             List.length (pie_charts st) = 1%nat).
  { eexists. split; [vm_compute; reflexivity|]. repeat split. }
  cbv zeta. split; [reflexivity|]. split; [reflexivity|]. split; [|exact H].
  destruct H as [st' [H _]]. intros st Hst. rewrite H in Hst. discriminate.
Qed.

(** ** The pandas default of [observed] *)

Lemma intensity_sum_observed (o1 o2 : bool) (rt intensity : list Q) :
  intensity_sum o1 rt intensity = intensity_sum o2 rt intensity.
Proof. now rewrite !intensity_sum_groups. Qed.

(** * The engine on doubles and on 64-bit integers *)

(** ** Whole numbers as doubles

    A whole number below 2^53 is a double, and sums and differences of
    such numbers that stay below 2^53 are computed without rounding.
    The lemmas follow the rounding function of the reference
    specification step by step. *)

Section WholeNumbers.
Local Open Scope Z_scope.

Lemma digits2_pos_shift (p d : positive) :
  digits2_pos (Pos.iter xO p d) = (digits2_pos p + d)%positive.
Proof.
  induction d as [|d IH] using Pos.peano_ind.
  - cbn. lia.
  - rewrite Pos.iter_succ. cbn [digits2_pos]. rewrite IH. lia.
Qed.

Lemma Zpos_shift (p d : positive) :
  Z.pos (Pos.iter xO p d) = Z.pos p * 2 ^ Z.pos d.
Proof.
  change (Pos.iter xO p d) with (shift_pos d p).
  rewrite shift_pos_correct, Z.pow_pos_fold. lia.
Qed.

Lemma iter_pos_iter {A : Type} (f : A -> A) (p : positive) (x : A) :
  iter_pos f p x = Pos.iter f x p.
Proof.
  revert x. induction p as [p IH|p IH|]; intro x; cbn [iter_pos Pos.iter].
  - rewrite !IH, !Pos.iter_swap. reflexivity.
  - rewrite !IH. reflexivity.
  - reflexivity.
Qed.

Lemma shr_1_even (p : positive) :
  shr_1 {| shr_m := Z.pos p~0; shr_r := false; shr_s := false |}
  = {| shr_m := Z.pos p; shr_r := false; shr_s := false |}.
Proof. reflexivity. Qed.

Lemma shr_shift (n d : positive) :
  Pos.iter shr_1
           {| shr_m := Z.pos (Pos.iter xO n d); shr_r := false; shr_s := false |} d
  = {| shr_m := Z.pos n; shr_r := false; shr_s := false |}.
Proof.
  induction d as [|d IH] using Pos.peano_ind.
  - reflexivity.
  - rewrite Pos.iter_succ_r, (Pos.iter_succ d _ xO n), shr_1_even. exact IH.
Qed.

(** A mantissa of 53 bits with an exponent in range is kept as it is. *)
Lemma binary_round_aux_53 (s : bool) (n : positive) (e : Z) :
  digits2_pos n = 53%positive ->
  -1074 <= e <= 971 ->
  binary_round_aux 53 1024 s (Z.pos n) e loc_Exact = S754_finite s n e.
Proof.
  intros Hd He.
  assert (Hshr : shr_fexp 53 1024 (Z.pos n) e loc_Exact
                 = ({| shr_m := Z.pos n; shr_r := false; shr_s := false |}, e)).
  { unfold shr_fexp, Zdigits2, fexp, emin. rewrite Hd.
    replace (Z.max (53 + e - 53) (3 - 1024 - 53) - e) with 0 by lia.
    reflexivity. }
  unfold binary_round_aux. rewrite Hshr.
  cbn [shr_m loc_of_shr_record round_nearest_even]. rewrite Hshr. cbn [shr_m].
  replace (e <=? 1024 - 53) with true by (symmetry; apply Z.leb_le; lia).
  reflexivity.
Qed.

(** A short mantissa is shifted up to 53 bits. *)
Lemma binary_round_up (s : bool) (m : positive) (e : Z) (d : positive) :
  (digits2_pos m + d = 53)%positive ->
  -1074 <= e - Z.pos d <= 971 ->
  binary_round 53 1024 s m e = S754_finite s (Pos.iter xO m d) (e - Z.pos d).
Proof.
  intros Hd He. unfold binary_round, fexp, emin.
  assert (Hdz : Z.pos (digits2_pos m) = 53 - Z.pos d) by lia.
  rewrite Hdz.
  replace (Z.max (53 - Z.pos d + e - 53) (3 - 1024 - 53)) with (e - Z.pos d) by lia.
  unfold shl_align.
  replace (e - Z.pos d - e) with (Z.neg d) by lia.
  apply binary_round_aux_53; [|exact He].
  rewrite digits2_pos_shift. exact Hd.
Qed.

Lemma binary_round_53 (s : bool) (m : positive) (e : Z) :
  digits2_pos m = 53%positive ->
  -1074 <= e <= 971 ->
  binary_round 53 1024 s m e = S754_finite s m e.
Proof.
  intros Hd He. unfold binary_round, fexp, emin. rewrite Hd.
  replace (Z.max (53 + e - 53) (3 - 1024 - 53)) with e by lia.
  unfold shl_align. rewrite Z.sub_diag.
  now apply binary_round_aux_53.
Qed.

(** A long mantissa that ends in zeros is shifted down to 53 bits. *)
Lemma binary_round_down (s : bool) (n : positive) (e : Z) (d : positive) :
  digits2_pos n = 53%positive ->
  -1074 <= e + Z.pos d <= 971 ->
  binary_round 53 1024 s (Pos.iter xO n d) e = S754_finite s n (e + Z.pos d).
Proof.
  intros Hd He. unfold binary_round, fexp, emin.
  rewrite digits2_pos_shift, Hd.
  replace (Z.max (Z.pos (53 + d) + e - 53) (3 - 1024 - 53)) with (e + Z.pos d) by lia.
  unfold shl_align.
  replace (e + Z.pos d - e) with (Z.pos d) by lia.
  assert (Hshr : shr_fexp 53 1024 (Z.pos (Pos.iter xO n d)) e loc_Exact
                 = ({| shr_m := Z.pos n; shr_r := false; shr_s := false |},
                    e + Z.pos d)).
  { unfold shr_fexp, Zdigits2, fexp, emin. rewrite digits2_pos_shift, Hd.
    replace (Z.max (Z.pos (53 + d) + e - 53) (3 - 1024 - 53) - e) with (Z.pos d) by lia.
    unfold shr, shr_record_of_loc. rewrite iter_pos_iter, shr_shift. reflexivity. }
  unfold binary_round_aux. rewrite Hshr.
  cbn [shr_m loc_of_shr_record round_nearest_even].
  assert (Hshr2 : shr_fexp 53 1024 (Z.pos n) (e + Z.pos d) loc_Exact
                  = ({| shr_m := Z.pos n; shr_r := false; shr_s := false |},
                     e + Z.pos d)).
  { unfold shr_fexp, Zdigits2, fexp, emin. rewrite Hd.
    replace (Z.max (53 + (e + Z.pos d) - 53) (3 - 1024 - 53) - (e + Z.pos d))
      with 0 by lia.
    reflexivity. }
  rewrite Hshr2. cbn [shr_m].
  replace (e + Z.pos d <=? 1024 - 53) with true by (symmetry; apply Z.leb_le; lia).
  reflexivity.
Qed.

Lemma digits2_pos_size (p : positive) : digits2_pos p = Pos.size p.
Proof. induction p as [p IH|p IH|]; cbn; now rewrite ?IH. Qed.

Lemma digits2_pos_bound (p : positive) (n : Z) :
  0 <= n -> Z.pos p < 2 ^ n -> Z.pos (digits2_pos p) <= n.
Proof.
  intros Hn Hlt. rewrite digits2_pos_size.
  pose proof (Pos.size_le p) as Hle.
  apply Pos2Z.pos_le_pos in Hle. rewrite Pos2Z.inj_pow in Hle.
  change (Z.pos p~0) with (2 * Z.pos p) in Hle.
  destruct (Z.le_gt_cases (Z.pos (Pos.size p)) n) as [H|H]; [exact H|].
  assert (Hpow : 2 ^ (n + 1) <= 2 ^ Z.pos (Pos.size p))
    by (apply Z.pow_le_mono_r; lia).
  rewrite Z.pow_add_r in Hpow by lia. lia.
Qed.

(** The double of a whole number below 2^53 has a mantissa of 53 bits
    and holds the number exactly. *)
Lemma binary_round_whole (s : bool) (z : positive) :
  Z.pos z < 2 ^ 53 ->
  exists (m : positive) (t : Z),
    binary_round 53 1024 s z 0 = S754_finite s m (- t) /\
    digits2_pos m = 53%positive /\
    0 <= t <= 52 /\
    Z.pos m = Z.pos z * 2 ^ t.
Proof.
  intro Hlt.
  pose proof (digits2_pos_bound z 53 ltac:(lia) Hlt) as Hd.
  destruct (Z.eq_dec (Z.pos (digits2_pos z)) 53) as [E|E].
  - exists z, 0. rewrite binary_round_53 by lia.
    repeat split; try lia.
  - destruct (53 - Z.pos (digits2_pos z)) as [|d|d] eqn:Ed; try lia.
    exists (Pos.iter xO z d), (Z.pos d).
    rewrite (binary_round_up s z 0 d) by lia.
    rewrite digits2_pos_shift, Zpos_shift.
    repeat split; try lia.
Qed.

(** However a whole number below 2^53 is written as a mantissa and a
    non-positive exponent, rounding gives its double. *)
Lemma binary_round_shifted (s : bool) (m z : positive) (k : Z) :
  0 <= k ->
  Z.pos z < 2 ^ 53 ->
  Z.pos m = Z.pos z * 2 ^ k ->
  binary_round 53 1024 s m (- k) = binary_round 53 1024 s z 0.
Proof.
  intros Hk Hlt Hm.
  destruct (binary_round_whole s z Hlt) as [n [t [-> [Hd [Ht Hn]]]]].
  destruct (Z.compare_spec k t) as [E|E|E].
  - subst t. assert (m = n) by lia. subst n.
    apply binary_round_53; [exact Hd | lia].
  - destruct (t - k) as [|d|d] eqn:Ed; try lia.
    assert (Hn' : n = Pos.iter xO m d).
    { apply Pos2Z.inj. rewrite Zpos_shift, Hn, Hm.
      replace t with (k + Z.pos d) by lia.
      rewrite Z.pow_add_r by lia. ring. }
    subst n. rewrite digits2_pos_shift in Hd.
    rewrite (binary_round_up s m (- k) d) by lia.
    f_equal. lia.
  - destruct (k - t) as [|d|d] eqn:Ed; try lia.
    assert (Hm' : m = Pos.iter xO n d).
    { apply Pos2Z.inj. rewrite Zpos_shift, Hn, Hm.
      replace k with (t + Z.pos d) by lia.
      rewrite Z.pow_add_r by lia. ring. }
    subst m. rewrite (binary_round_down s n (- k) d) by lia.
    f_equal. lia.
Qed.

Lemma shl_align_value (m : positive) (e e' : Z) :
  e' <= e ->
  Z.pos (fst (shl_align m e e')) = Z.pos m * 2 ^ (e - e').
Proof.
  intro H. unfold shl_align.
  destruct (e' - e) as [|d|d] eqn:Ed; try lia; cbn [fst].
  - replace (e - e') with 0 by lia. lia.
  - rewrite Zpos_shift. f_equal. f_equal. lia.
Qed.

Lemma f64_of_Z_pos (z : positive) :
  f64_of_Z (Z.pos z) = binary_round 53 1024 false z 0.
Proof. reflexivity. Qed.

(** Adding two whole numbers is exact as long as the sum is below 2^53. *)
Lemma f64_add_whole (x y : Z) :
  0 <= x -> 0 <= y -> x + y < 2 ^ 53 ->
  f64_add (f64_of_Z x) (f64_of_Z y) = f64_of_Z (x + y).
Proof.
  intros Hx Hy Hlt.
  destruct x as [|x|x]; [|clear Hx|lia].
  { cbn [Z.add]. destruct y as [|y|y]; [reflexivity| |lia].
    rewrite f64_of_Z_pos.
    destruct (binary_round_whole false y ltac:(lia)) as [n [t [-> _]]].
    reflexivity. }
  destruct y as [|y|y]; [|clear Hy|lia].
  { rewrite Z.add_0_r, f64_of_Z_pos.
    destruct (binary_round_whole false x ltac:(lia)) as [n [t [-> _]]].
    reflexivity. }
  change (Z.pos x + Z.pos y) with (Z.pos (x + y)) in *.
  rewrite !f64_of_Z_pos.
  destruct (binary_round_whole false x ltac:(lia)) as [mx [tx [-> [_ [Htx Hmx]]]]].
  destruct (binary_round_whole false y ltac:(lia)) as [my [ty [-> [_ [Hty Hmy]]]]].
  unfold f64_add, SFadd. cbn [cond_Zopp].
  set (ez := Z.min (- tx) (- ty)).
  rewrite !shl_align_value by lia.
  assert (Hsum : Z.pos mx * 2 ^ (- tx - ez) + Z.pos my * 2 ^ (- ty - ez)
                 = Z.pos (x + y) * 2 ^ (- ez)).
  { rewrite Hmx, Hmy, <- !Z.mul_assoc, <- !Z.pow_add_r by lia.
    replace (tx + (- tx - ez)) with (- ez) by lia.
    replace (ty + (- ty - ez)) with (- ez) by lia.
    lia. }
  rewrite Hsum.
  assert (Hpos : 0 < Z.pos (x + y) * 2 ^ (- ez))
    by (apply Z.mul_pos_pos; [lia | apply Z.pow_pos_nonneg; lia]).
  destruct (Z.pos (x + y) * 2 ^ (- ez)) as [|m|m] eqn:Em; try lia.
  unfold binary_normalize.
  replace ez with (- (- ez)) at 1 by lia.
  apply binary_round_shifted; lia.
Qed.

(** Subtracting a whole number from a larger one below 2^53 is exact. *)
Lemma f64_sub_whole (x y : Z) :
  0 <= y -> y <= x -> x < 2 ^ 53 ->
  f64_sub (f64_of_Z x) (f64_of_Z y) = f64_of_Z (x - y).
Proof.
  intros Hy Hyx Hlt.
  destruct y as [|y|y]; [|clear Hy|lia].
  { rewrite Z.sub_0_r. destruct x as [|x|x]; [reflexivity| |lia].
    rewrite f64_of_Z_pos.
    destruct (binary_round_whole false x ltac:(lia)) as [n [t [-> _]]].
    reflexivity. }
  destruct x as [|x|x]; try lia.
  rewrite !f64_of_Z_pos.
  destruct (binary_round_whole false x ltac:(lia)) as [mx [tx [-> [_ [Htx Hmx]]]]].
  destruct (binary_round_whole false y ltac:(lia)) as [my [ty [-> [_ [Hty Hmy]]]]].
  unfold f64_sub, SFsub. cbn [cond_Zopp].
  set (ez := Z.min (- tx) (- ty)).
  rewrite !shl_align_value by lia.
  assert (Hdiff : Z.pos mx * 2 ^ (- tx - ez) - Z.pos my * 2 ^ (- ty - ez)
                  = (Z.pos x - Z.pos y) * 2 ^ (- ez)).
  { rewrite Hmx, Hmy, <- !Z.mul_assoc, <- !Z.pow_add_r by lia.
    replace (tx + (- tx - ez)) with (- ez) by lia.
    replace (ty + (- ty - ez)) with (- ez) by lia.
    lia. }
  rewrite Hdiff.
  destruct (Z.eq_dec (Z.pos x) (Z.pos y)) as [E|E].
  { rewrite E, Z.sub_diag. reflexivity. }
  destruct (Z.pos x - Z.pos y) as [|z|z] eqn:Ez; try lia.
  assert (Hpos : 0 < Z.pos z * 2 ^ (- ez))
    by (apply Z.mul_pos_pos; [lia | apply Z.pow_pos_nonneg; lia]).
  destruct (Z.pos z * 2 ^ (- ez)) as [|m|m] eqn:Em; try lia.
  unfold binary_normalize. rewrite f64_of_Z_pos.
  replace ez with (- (- ez)) at 1 by lia.
  apply binary_round_shifted; lia.
Qed.

End WholeNumbers.

(** ** Comparing doubles *)

Lemma SFcompare_swap (x y : f64) :
  SFcompare y x = option_map CompOpp (SFcompare x y).
Proof.
  destruct x as [sx|sx| |sx mx ex], y as [sy|sy| |sy my ey]; cbn;
    try reflexivity;
    try (destruct sx; reflexivity);
    try (destruct sy; reflexivity);
    try (destruct sx, sy; reflexivity).
  change (PosDef.Pos.compare_cont Eq my mx) with (Pos.compare my mx).
  change (PosDef.Pos.compare_cont Eq mx my) with (Pos.compare mx my).
  rewrite (Z.compare_antisym ex ey), (Pos.compare_antisym mx my).
  destruct sx, sy; try reflexivity;
    destruct (ex ?= ey)%Z; cbn; try reflexivity.
Qed.

Lemma f64_leb_numbers (x y : f64) :
  f64_leb x y = true -> f64_is_nan x = false /\ f64_is_nan y = false.
Proof.
  unfold f64_leb, SFleb.
  destruct x as [sx|sx| |sx mx ex], y as [sy|sy| |sy my ey]; cbn;
    intro H; try discriminate; split; reflexivity.
Qed.

Lemma f64_ltb_numbers (x y : f64) :
  f64_ltb x y = true -> f64_is_nan x = false /\ f64_is_nan y = false.
Proof.
  unfold f64_ltb, SFltb.
  destruct x as [sx|sx| |sx mx ex], y as [sy|sy| |sy my ey]; cbn;
    intro H; try discriminate; split; reflexivity.
Qed.

Lemma SFcompare_numbers (x y : f64) :
  f64_is_nan x = false -> f64_is_nan y = false ->
  exists c, SFcompare x y = Some c.
Proof.
  destruct x as [sx|sx| |sx mx ex], y as [sy|sy| |sy my ey]; cbn;
    intros Hx Hy; try discriminate; eexists; reflexivity.
Qed.

(** Of two numbers, the second is below the first or the first is at
    most the second. *)
Lemma f64_ltb_false_leb (x y : f64) :
  f64_is_nan x = false -> f64_is_nan y = false ->
  f64_ltb x y = false -> f64_leb y x = true.
Proof.
  intros Hx Hy. unfold f64_ltb, f64_leb, SFltb, SFleb.
  rewrite (SFcompare_swap x y).
  destruct (SFcompare_numbers x y Hx Hy) as [c ->]. cbn.
  destruct c; cbn; intro H; try reflexivity; discriminate.
Qed.

Lemma finite_nonneg_f64_number (x : f64) :
  finite_nonneg_f64 x = true -> f64_is_nan x = false.
Proof.
  unfold finite_nonneg_f64. intro H. apply andb_prop in H.
  destruct H as [H _]. now apply f64_leb_numbers in H.
Qed.

(** ** [pd.cut] on doubles *)

Lemma pd_cut_f64_thresholds (x : f64) :
  finite_nonneg_f64 x = true ->
  pd_cut_f64 x bins_f64 bin_labels = Some (range_of_f64 x).
Proof.
  intro Hx. pose proof (finite_nonneg_f64_number x Hx) as Hnum.
  unfold finite_nonneg_f64 in Hx. apply andb_prop in Hx. destruct Hx as [H0 Hinf].
  unfold bins_f64, bin_labels, range_of_f64. cbn [pd_cut_f64].
  rewrite H0. cbn [andb].
  destruct (f64_ltb x (f64_of_Z 20)) eqn:E20; [reflexivity|].
  rewrite (f64_ltb_false_leb x (f64_of_Z 20) Hnum eq_refl E20). cbn [andb].
  destruct (f64_ltb x (f64_of_Z 40)) eqn:E40; [reflexivity|].
  rewrite (f64_ltb_false_leb x (f64_of_Z 40) Hnum eq_refl E40). cbn [andb].
  destruct (f64_ltb x (f64_of_Z 60)) eqn:E60; [reflexivity|].
  rewrite (f64_ltb_false_leb x (f64_of_Z 60) Hnum eq_refl E60). cbn [andb].
  destruct (f64_ltb x (f64_of_Z 80)) eqn:E80; [reflexivity|].
  rewrite (f64_ltb_false_leb x (f64_of_Z 80) Hnum eq_refl E80). cbn [andb].
  now rewrite Hinf.
Qed.

Lemma range_of_f64_label (x : f64) : In (range_of_f64 x) bin_labels.
Proof.
  unfold range_of_f64, bin_labels.
  destruct (f64_ltb x (f64_of_Z 20)); [now left|].
  destruct (f64_ltb x (f64_of_Z 40)); [right; now left|].
  destruct (f64_ltb x (f64_of_Z 60)); [do 2 right; now left|].
  destruct (f64_ltb x (f64_of_Z 80)); [do 3 right; now left|].
  do 4 right. now left.
Qed.

Lemma RT_range_f64_thresholds (retention_time : list f64) :
  forallb finite_nonneg_f64 retention_time = true ->
  RT_range_f64 retention_time
  = map (fun x => Some (range_of_f64 x)) retention_time.
Proof.
  intro H. unfold RT_range_f64. apply map_ext_in. intros x Hx.
  apply pd_cut_f64_thresholds.
  rewrite forallb_forall in H. now apply H.
Qed.

(** ** Groups *)

Lemma group_by_key_cons {A : Type} (lab : string) (keys : list (option string))
    (v : A) (vals : list A) (c : string) :
  group_by_key (Some lab :: keys) (v :: vals) c
  = if String.eqb lab c then v :: group_by_key keys vals c
    else group_by_key keys vals c.
Proof.
  unfold group_by_key. cbn [combine filter fst snd].
  destruct (String.eqb lab c); reflexivity.
Qed.

Lemma groups_without_the_label {A : Type} (lab : string)
    (keys : list (option string)) (v : A) (vals : list A) (labels : list string) :
  ~ In lab labels ->
  map (group_by_key (Some lab :: keys) (v :: vals)) labels
  = map (group_by_key keys vals) labels.
Proof.
  intro Hnot. apply map_ext_in. intros c Hc. rewrite group_by_key_cons.
  destruct (String.eqb lab c) eqn:E; [|reflexivity].
  apply String.eqb_eq in E. subst c. contradiction.
Qed.

Lemma groups_with_the_label {A : Type} (lab : string)
    (keys : list (option string)) (v : A) (vals : list A) (labels : list string) :
  NoDup labels -> In lab labels ->
  Permutation
    (List.concat (map (group_by_key (Some lab :: keys) (v :: vals)) labels))
    (v :: List.concat (map (group_by_key keys vals) labels)).
Proof.
  induction labels as [|c cs IH]; intros Hnd Hin; [contradiction|].
  inversion Hnd as [|c' cs' Hc Hcs]; subst.
  cbn [map List.concat]. rewrite group_by_key_cons.
  destruct (String.eqb lab c) eqn:E.
  - apply String.eqb_eq in E. subst c.
    rewrite groups_without_the_label by exact Hc. reflexivity.
  - destruct Hin as [-> | Hin]; [rewrite String.eqb_refl in E; discriminate|].
    etransitivity; [apply Permutation_app_head, IH; assumption|].
    symmetry. apply Permutation_middle.
Qed.

(** Every value of the column is in the group of exactly one label. *)
Lemma groups_partition {A : Type} (labels : list string)
    (keys : list string) (vals : list A) :
  NoDup labels ->
  Forall (fun k => In k labels) keys ->
  List.length vals = List.length keys ->
  Permutation (List.concat (map (group_by_key (map Some keys) vals) labels)) vals.
Proof.
  intros Hnd Hkeys. revert vals.
  induction Hkeys as [|k ks Hk Hks IH]; intros vals Hlen.
  - destruct vals; [|discriminate]. cbn [map].
    induction labels as [|c cs IHc]; [constructor|].
    inversion Hnd; subst. cbn. now apply IHc.
  - destruct vals as [|v vs]; [discriminate|]. cbn [map].
    etransitivity; [now apply groups_with_the_label|].
    constructor. apply IH. now injection Hlen.
Qed.

(** ** Sums of an int64 column *)

Lemma fold_Zadd_acc (l : list Z) (a : Z) :
  fold_left Z.add l a = (a + Zsum l)%Z.
Proof.
  unfold Zsum. revert a. induction l as [|x l IH]; intro a; cbn.
  - lia.
  - rewrite IH, (IH x). lia.
Qed.

Lemma Zsum_cons (x : Z) (l : list Z) : Zsum (x :: l) = (x + Zsum l)%Z.
Proof. unfold Zsum at 1. cbn. now rewrite fold_Zadd_acc. Qed.

Lemma Zsum_app (l1 l2 : list Z) : Zsum (l1 ++ l2)%list = (Zsum l1 + Zsum l2)%Z.
Proof.
  induction l1 as [|x l1 IH]; [reflexivity|].
  cbn [app]. rewrite !Zsum_cons, IH. lia.
Qed.

Lemma Zsum_Permutation (l1 l2 : list Z) :
  Permutation l1 l2 -> Zsum l1 = Zsum l2.
Proof.
  induction 1; rewrite ?Zsum_cons in *; lia.
Qed.

Lemma Zsum_concat (ls : list (list Z)) :
  Zsum (List.concat ls) = Zsum (map Zsum ls).
Proof.
  induction ls as [|l ls IH]; [reflexivity|].
  cbn [List.concat map]. now rewrite Zsum_app, Zsum_cons, IH.
Qed.

Lemma Zsum_nonneg (l : list Z) :
  Forall (fun v => 0 <= v)%Z l -> (0 <= Zsum l)%Z.
Proof.
  induction 1 as [|x l Hx Hl IH]; [reflexivity|]. rewrite Zsum_cons. lia.
Qed.

Lemma wrap_i64_small (z : Z) :
  (- 2 ^ 63 <= z < 2 ^ 63)%Z -> wrap_i64 z = z.
Proof.
  intro H. unfold wrap_i64. rewrite Z.mod_small; lia.
Qed.

Lemma fold_wrap_i64_exact (l : list Z) (a : Z) :
  Forall (fun v => 0 <= v)%Z l ->
  (0 <= a)%Z -> (a + Zsum l < 2 ^ 63)%Z ->
  fold_left (fun acc v => wrap_i64 (acc + v)) l a = (a + Zsum l)%Z.
Proof.
  intro Hl. revert a. induction Hl as [|x l Hx Hl IH]; intros a Ha Hlt.
  - cbn. unfold Zsum. cbn. lia.
  - rewrite Zsum_cons in *. pose proof (Zsum_nonneg l Hl) as Hs.
    cbn [fold_left]. rewrite wrap_i64_small by lia.
    rewrite IH by lia. lia.
Qed.

(** Below 2^63 a sum of non-negative int64 values does not wrap. *)
Lemma sum_i64_exact (l : list Z) :
  Forall (fun v => 0 <= v)%Z l -> (Zsum l < 2 ^ 63)%Z -> sum_i64 l = Zsum l.
Proof.
  intros Hl Hlt. unfold sum_i64. rewrite fold_wrap_i64_exact; trivial; lia.
Qed.

Lemma group_by_key_nonneg (keys : list (option string)) (vals : list Z)
    (c : string) :
  Forall (fun v => 0 <= v)%Z vals ->
  Forall (fun v => 0 <= v)%Z (group_by_key keys vals c) /\
  (Zsum (group_by_key keys vals c) <= Zsum vals)%Z.
Proof.
  intro Hv. revert keys. induction Hv as [|v vs Hv0 Hvs IH]; intro keys.
  - replace (group_by_key keys [] c) with (@nil Z)
      by (unfold group_by_key; now destruct keys).
    split; [constructor | reflexivity].
  - pose proof (Zsum_nonneg vs Hvs) as Hs.
    destruct keys as [|k ks].
    + change (group_by_key [] (v :: vs) c) with (@nil Z).
      split; [constructor|]. rewrite Zsum_cons. change (Zsum []) with 0%Z. lia.
    + destruct (IH ks) as [IH1 IH2]. rewrite Zsum_cons.
      destruct k as [lab|].
      * rewrite group_by_key_cons. destruct (String.eqb lab c).
        -- rewrite Zsum_cons. split; [now constructor | lia].
        -- split; [assumption | lia].
      * change (group_by_key (None :: ks) (v :: vs) c)
          with (group_by_key ks vs c).
        split; [assumption | lia].
Qed.

(** ** Sums of whole numbers in doubles *)

(** The double of a whole number below 2^53 stands for that number. *)
Lemma f64_value_whole (z : Z) :
  (0 <= z < 2 ^ 53)%Z -> f64_value (f64_of_Z z) == inject_Z z.
Proof.
  intros [H0 Hlt]. destruct z as [|z|z]; [reflexivity| |lia].
  rewrite f64_of_Z_pos.
  destruct (binary_round_whole false z Hlt) as [m [t [-> [_ [Ht Hm]]]]].
  unfold f64_value. destruct t as [|p|p]; try lia; cbn [Z.opp].
  - rewrite Hm. unfold Qeq, inject_Z. cbn [Qnum Qden]. lia.
  - unfold Qeq, inject_Z. cbn [Qnum Qden].
    rewrite Hm, Pos2Z.inj_pow. lia.
Qed.

(** Summing whole numbers in doubles is exact as long as the total is
    below 2^53. *)
Lemma fold_f64_add_whole (l : list Z) (a : Z) :
  Forall (fun v => 0 <= v)%Z l ->
  (0 <= a)%Z -> (a + Zsum l < 2 ^ 53)%Z ->
  fold_left f64_add (map f64_of_Z l) (f64_of_Z a) = f64_of_Z (a + Zsum l).
Proof.
  intro Hl. revert a. induction Hl as [|x l Hx Hl IH]; intros a Ha Hlt.
  - cbn. now rewrite Z.add_0_r.
  - rewrite Zsum_cons in *. pose proof (Zsum_nonneg l Hl) as Hs.
    cbn [map fold_left]. rewrite f64_add_whole by lia.
    rewrite IH by lia. f_equal. lia.
Qed.

Lemma sum_f64_whole (l : list Z) :
  Forall (fun v => 0 <= v)%Z l -> (Zsum l < 2 ^ 53)%Z ->
  sum_f64 (map f64_of_Z l) = f64_of_Z (Zsum l).
Proof.
  intros Hl Hlt. unfold sum_f64.
  change f64_zero with (f64_of_Z 0).
  rewrite fold_f64_add_whole; trivial; lia.
Qed.

Lemma group_by_key_map {A B : Type} (f : A -> B) (keys : list (option string))
    (vals : list A) (c : string) :
  group_by_key keys (map f vals) c = map f (group_by_key keys vals c).
Proof.
  unfold group_by_key. revert vals.
  induction keys as [|k ks IH]; intro vals; [reflexivity|].
  destruct vals as [|v vs]; [reflexivity|].
  cbn [map combine filter fst snd].
  destruct (match k with Some k0 => String.eqb k0 c | None => false end);
    cbn [map snd]; now rewrite IH.
Qed.

(** On whole numbers below 2^53 the sums of a float64 column are the
    doubles of the sums of the int64 column. *)
Lemma intensity_sum_f64_whole (rt : list f64) (intensity : list Z) :
  Forall (fun v => 0 <= v)%Z intensity ->
  (Zsum intensity < 2 ^ 53)%Z ->
  map snd (intensity_sum_f64 rt (map f64_of_Z intensity))
  = map f64_of_Z (map snd (intensity_sum_i64 rt intensity)).
Proof.
  intros Hnn Hlt. unfold intensity_sum_f64, intensity_sum_i64.
  rewrite !map_map. cbn [snd]. apply map_ext. intro c.
  destruct (group_by_key_nonneg (RT_range_f64 rt) intensity c Hnn) as [H1 H2].
  rewrite group_by_key_map, sum_f64_whole by (trivial; lia).
  f_equal. symmetry. apply sum_i64_exact; [exact H1 | lia].
Qed.

Lemma Qsum_values_whole (l : list Z) :
  Forall (fun v => 0 <= v < 2 ^ 53)%Z l ->
  Qsum (map f64_value (map f64_of_Z l)) == inject_Z (Zsum l).
Proof.
  induction 1 as [|x l Hx Hl IH]; [reflexivity|].
  cbn [map]. rewrite Qsum_cons, Zsum_cons, inject_Z_plus, IH.
  now rewrite f64_value_whole.
Qed.

Lemma whole_members_bounded (l : list Z) (b : Z) :
  Forall (fun v => 0 <= v)%Z l -> (Zsum l < b)%Z ->
  Forall (fun v => 0 <= v < b)%Z l.
Proof.
  induction 1 as [|x l Hx Hl IH]; intro Hlt; [constructor|].
  rewrite Zsum_cons in Hlt. pose proof (Zsum_nonneg l Hl).
  constructor; [lia | apply IH; lia].
Qed.

(** ** The five ranges on doubles *)

Lemma intensity_sum_i64_labels (rt : list f64) (intensity : list Z) :
  map fst (intensity_sum_i64 rt intensity) = bin_labels.
Proof.
  unfold intensity_sum_i64. rewrite map_map. cbn [fst]. apply map_id.
Qed.

Lemma intensity_sum_i64_exact (rt : list f64) (intensity : list Z) :
  Forall (fun v => 0 <= v)%Z intensity ->
  (Zsum intensity < 2 ^ 63)%Z ->
  map snd (intensity_sum_i64 rt intensity)
  = map Zsum (map (group_by_key (RT_range_f64 rt) intensity) bin_labels).
Proof.
  intros Hnn Hlt. unfold intensity_sum_i64. rewrite !map_map. cbn [snd].
  apply map_ext. intro c.
  destruct (group_by_key_nonneg (RT_range_f64 rt) intensity c Hnn) as [H1 H2].
  apply sum_i64_exact; [exact H1 | lia].
Qed.

(** C10, as the code has it.  When every retention time is a finite
    number and at least 0, [pd.cut] gives every point one of the five
    labels, the one its thresholds tell.  The five groups of
    intensities, taken together, are then a rearrangement of the
    intensity column: no point is counted twice and none is dropped, and
    the five values of the pie are the sums of these groups.  When the
    intensities are whole numbers, none negative, with a total below
    2^53, the five sums add up exactly to the total: on an int64 column,
    and on a float64 column that holds the same numbers, whose sums are
    then the doubles of the int64 sums. *)
Theorem C10_buckets_partition_the_points (retention_time : list f64) :
  forallb finite_nonneg_f64 retention_time = true ->
  RT_range_f64 retention_time
  = map (fun x => Some (range_of_f64 x)) retention_time /\
  (forall intensity : list f64,
      List.length intensity = List.length retention_time ->
      Permutation
        (List.concat (map (group_by_key (RT_range_f64 retention_time) intensity)
                          bin_labels))
        intensity /\
      map snd (intensity_sum_f64 retention_time intensity)
      = map sum_f64 (map (group_by_key (RT_range_f64 retention_time) intensity)
                         bin_labels)) /\
  (forall intensity : list Z,
      List.length intensity = List.length retention_time ->
      Forall (fun v => 0 <= v)%Z intensity ->
      (Zsum intensity < 2 ^ 53)%Z ->
      map fst (intensity_sum_i64 retention_time intensity) = bin_labels /\
      Zsum (map snd (intensity_sum_i64 retention_time intensity))
      = Zsum intensity /\
      map snd (intensity_sum_f64 retention_time (map f64_of_Z intensity))
      = map f64_of_Z (map snd (intensity_sum_i64 retention_time intensity)) /\
      Qsum (map f64_value
                (map snd (intensity_sum_f64 retention_time
                                            (map f64_of_Z intensity))))
      == Qsum (map f64_value (map f64_of_Z intensity))).
Proof.
  intro Hrt. pose proof (RT_range_f64_thresholds retention_time Hrt) as Hkeys.
  assert (Hpart : forall (A : Type) (vals : list A),
             List.length vals = List.length retention_time ->
             Permutation
               (List.concat (map (group_by_key (RT_range_f64 retention_time) vals)
                                 bin_labels))
               vals).
  { intros A vals Hlen. rewrite Hkeys.
    rewrite <- (map_map range_of_f64 Some).
    apply groups_partition.
    - exact bin_labels_NoDup.
    - apply Forall_forall. intros k Hk. apply in_map_iff in Hk.
      destruct Hk as [x [<- _]]. apply range_of_f64_label.
    - now rewrite length_map. }
  split; [exact Hkeys|]. split.
  - intros intensity Hlen. split; [now apply Hpart|].
    unfold intensity_sum_f64. rewrite !map_map. reflexivity.
  - intros intensity Hlen Hnn Hlt.
    assert (Htotal : Zsum (map snd (intensity_sum_i64 retention_time intensity))
                     = Zsum intensity).
    { rewrite intensity_sum_i64_exact by (trivial; lia).
      rewrite <- Zsum_concat. apply Zsum_Permutation. now apply Hpart. }
    split; [apply intensity_sum_i64_labels|].
    split; [exact Htotal|].
    split; [now apply intensity_sum_f64_whole|].
    rewrite intensity_sum_f64_whole by trivial.
    rewrite !Qsum_values_whole, Htotal; [reflexivity | |].
    + now apply whole_members_bounded.
    + apply whole_members_bounded; [|now rewrite Htotal].
      rewrite intensity_sum_i64_exact by (trivial; lia).
      apply Forall_forall. intros v Hv. apply in_map_iff in Hv.
      destruct Hv as [g [<- Hg]]. apply in_map_iff in Hg.
      destruct Hg as [c [<- _]]. apply Zsum_nonneg.
      now apply group_by_key_nonneg.
Qed.

Lemma C10_buckets_partition_the_points_witness :
  let retention_time := [f64_of_Z 10; f64_of_Z 30; f64_of_Z 90] in
  RT_range_f64 retention_time
  = map (fun x => Some (range_of_f64 x)) retention_time /\
  (forall intensity : list f64,
      List.length intensity = List.length retention_time ->
      Permutation
        (List.concat (map (group_by_key (RT_range_f64 retention_time) intensity)
                          bin_labels))
        intensity /\
      map snd (intensity_sum_f64 retention_time intensity)
      = map sum_f64 (map (group_by_key (RT_range_f64 retention_time) intensity)
                         bin_labels)) /\
  (forall intensity : list Z,
      List.length intensity = List.length retention_time ->
      Forall (fun v => 0 <= v)%Z intensity ->
      (Zsum intensity < 2 ^ 53)%Z ->
      map fst (intensity_sum_i64 retention_time intensity) = bin_labels /\
      Zsum (map snd (intensity_sum_i64 retention_time intensity))
      = Zsum intensity /\
      map snd (intensity_sum_f64 retention_time (map f64_of_Z intensity))
      = map f64_of_Z (map snd (intensity_sum_i64 retention_time intensity)) /\
      Qsum (map f64_value
                (map snd (intensity_sum_f64 retention_time
                                            (map f64_of_Z intensity))))
      == Qsum (map f64_value (map f64_of_Z intensity))).
Proof.
  apply (C10_buckets_partition_the_points
           [f64_of_Z 10; f64_of_Z 30; f64_of_Z 90]).
  vm_compute. reflexivity.
Defined.

(** Four peaks with the float intensities 1e16, 1.0, 1.0, 1.0, the
    first two at 10 minutes and the others at 30.  The sums of the two
    ranges are 1e16 (1e16 + 1.0 rounds to 1e16) and 2.0: they add up to
    1e16 + 2, the intensities to 1e16 + 3 (and to 1e16 when the column
    is summed in doubles). *)
Lemma C10_counterexample :
  let retention_time := map f64_of_Z [10; 10; 30; 30]%Z in
  let intensity := map f64_of_Z [10 ^ 16; 1; 1; 1]%Z in
  forallb finite_nonneg_f64 retention_time = true /\
  intensity_sum_f64 retention_time intensity
  = [("0-20 min", f64_of_Z (10 ^ 16)); ("20-40 min", f64_of_Z 2);
     ("40-60 min", f64_zero); ("60-80 min", f64_zero); ("80+ min", f64_zero)] /\
  Qsum (map f64_value (map snd (intensity_sum_f64 retention_time intensity)))
  == inject_Z (10 ^ 16 + 2) /\
  Qsum (map f64_value intensity) == inject_Z (10 ^ 16 + 3) /\
  sum_f64 intensity = f64_of_Z (10 ^ 16) /\
  ~ Qsum (map f64_value (map snd (intensity_sum_f64 retention_time intensity)))
    == Qsum (map f64_value intensity).
Proof.
  vm_compute. repeat split; try reflexivity. intro H. discriminate H.
Qed.

(** ** [np.arange] on doubles *)

Lemma arange_f64_length (start stop step : f64) (n : nat) :
  arange_len_f64 start stop step = Some n ->
  exists l, arange_f64 start stop step = Some l /\ List.length l = n.
Proof.
  intro H. unfold arange_f64. rewrite H. eexists. split; [reflexivity|].
  now rewrite length_map, length_seq.
Qed.

Lemma arange_f64_one (start stop step : f64) :
  arange_len_f64 start stop step = Some 1%nat ->
  arange_f64 start stop step = Some [start].
Proof. intro H. unfold arange_f64. now rewrite H. Qed.

Lemma arange_f64_two (start stop step : f64) :
  arange_len_f64 start stop step = Some 2%nat ->
  arange_f64 start stop step = Some [start; f64_add start step].
Proof. intro H. unfold arange_f64. now rewrite H. Qed.

Lemma length_removelast {A : Type} (l : list A) :
  List.length (removelast l) = (List.length l - 1)%nat.
Proof.
  induction l as [|a l IH]; [reflexivity|].
  destruct l as [|b l]; [reflexivity|].
  change (removelast (a :: b :: l)) with (a :: removelast (b :: l)).
  cbn [List.length] in *. rewrite IH. lia.
Qed.

Lemma bin_centers_f64_length (edges : list f64) :
  List.length (bin_centers_f64 edges) = (List.length edges - 1)%nat.
Proof.
  unfold bin_centers_f64.
  rewrite length_map, length_combine, length_removelast.
  destruct edges; cbn [tl List.length]; lia.
Qed.

Lemma binned_from_edges_f64_length (rt intensity edges : list f64) :
  List.length (binned_from_edges_f64 rt intensity edges)
  = (List.length edges - 1)%nat.
Proof.
  unfold binned_from_edges_f64. now rewrite length_map, length_seq.
Qed.

Lemma normalize_f64_length (binned : list f64) :
  List.length (normalize_f64 binned) = List.length binned.
Proof. unfold normalize_f64. apply length_map. Qed.

(** ** A series with a single retention time *)

(** C6, as the code has it.  When [min(rt) = max(rt)] line 105 is
    [np.arange(min, min + w, w)], and the number of edges is the ceiling
    of the double quotient [((min + w) - min) / w]; nothing in the code
    makes it 2.  The line series has one point less than there are
    edges.  With one edge, the edge is [min(rt)], there is no bin and
    the line series is empty; with two, the edges are [min(rt)] and the
    double [min(rt) + w]. *)
Theorem C6_single_point_edge_count (retention_time intensity : list f64)
    (rt_merge_width : f64) (n : nat) :
  let lo := series_min_f64 retention_time in
  series_max_f64 retention_time = lo ->
  arange_len_f64 lo (f64_add lo rt_merge_width) rt_merge_width = Some n ->
  exists h,
    histogram_f64 retention_time intensity rt_merge_width = Some h /\
    List.length (h_edges h) = n /\
    List.length (h_relative h) = (n - 1)%nat /\
    List.length (h_centers h) = (n - 1)%nat /\
    (n = 1%nat ->
     h_edges h = [lo] /\ h_binned h = [] /\ h_total h = f64_zero /\
     h_relative h = [] /\ h_centers h = []) /\
    (n = 2%nat -> h_edges h = [lo; f64_add lo rt_merge_width]).
Proof.
  intros lo Hmax Hlen.
  destruct (arange_f64_length _ _ _ _ Hlen) as [edges [Hedges Hn]].
  unfold histogram_f64, bin_edges_f64. fold lo. rewrite Hmax, Hedges.
  eexists. split; [reflexivity|]. cbn [h_edges h_binned h_total h_relative h_centers].
  split; [exact Hn|].
  split; [now rewrite normalize_f64_length, binned_from_edges_f64_length, Hn|].
  split; [now rewrite bin_centers_f64_length, Hn|].
  split.
  - intros ->. rewrite (arange_f64_one _ _ _ Hlen) in Hedges.
    injection Hedges as <-. repeat split.
  - intros ->. rewrite (arange_f64_two _ _ _ Hlen) in Hedges.
    now injection Hedges as <-.
Qed.

Lemma C6_single_point_edge_count_witness :
  let retention_time := [f64_of_Z 5] in
  let intensity := [f64_of_Z 10] in
  let rt_merge_width := f64_of_Z 1 in
  let lo := series_min_f64 retention_time in
  exists h,
    histogram_f64 retention_time intensity rt_merge_width = Some h /\
    List.length (h_edges h) = 1%nat /\
    List.length (h_relative h) = (1 - 1)%nat /\
    List.length (h_centers h) = (1 - 1)%nat /\
    (1%nat = 1%nat ->
     h_edges h = [lo] /\ h_binned h = [] /\ h_total h = f64_zero /\
     h_relative h = [] /\ h_centers h = []) /\
    (1%nat = 2%nat -> h_edges h = [lo; f64_add lo rt_merge_width]).
Proof.
  apply (C6_single_point_edge_count [f64_of_Z 5] [f64_of_Z 10] (f64_of_Z 1) 1).
  - reflexivity.
  - vm_compute. reflexivity.
Defined.

(** One peak at 5.0 minutes, width 1.0 (the slider's maximum): every
    operation is exact, [np.arange(5.0, 6.0, 1.0)] is [[5.0]], one edge
    only, and the line series is empty. *)
Lemma C6_counterexample :
  let retention_time := [f64_of_Z 5] in
  let intensity := [f64_of_Z 10] in
  let rt_merge_width := f64_of_Z 1 in
  series_min_f64 retention_time = series_max_f64 retention_time /\
  bin_edges_f64 retention_time rt_merge_width = Some [f64_of_Z 5] /\
  ~ (forall edges, bin_edges_f64 retention_time rt_merge_width = Some edges ->
                   (2 <= List.length edges)%nat) /\
  option_map h_relative (histogram_f64 retention_time intensity rt_merge_width)
  = Some [].
Proof.
  cbv zeta. split; [reflexivity|]. split; [vm_compute; reflexivity|].
  split; [|vm_compute; reflexivity].
  intro H. specialize (H [f64_of_Z 5]).
  assert (Hlen : (2 <= List.length [f64_of_Z 5])%nat)
    by (apply H; vm_compute; reflexivity).
  cbn in Hlen. lia.
Qed.

(** The same peak at the default width 0.2: 5.0 + 0.2 rounds to
    5.2, the quotient (5.2 - 5.0) / 0.2 comes out above 1, and there
    are the two edges 5.0 and 5.2: one bin, which holds the peak. *)
Lemma single_point_at_the_default_width :
  let retention_time := [f64_of_Z 5] in
  let intensity := [f64_of_Z 10] in
  let rt_merge_width := f64_of_Q (2 # 10) in
  arange_len_f64 (f64_of_Z 5) (f64_add (f64_of_Z 5) rt_merge_width) rt_merge_width
  = Some 2%nat /\
  bin_edges_f64 retention_time rt_merge_width
  = Some [f64_of_Z 5; f64_of_Q (52 # 10)] /\
  option_map h_indices (histogram_f64 retention_time intensity rt_merge_width)
  = Some [1%nat] /\
  option_map h_relative (histogram_f64 retention_time intensity rt_merge_width)
  = Some [f64_of_Z 100].
Proof.
  vm_compute. repeat split.
Qed.

(** One peak at a whole minute, width 1.0: every operation is exact and
    there is one edge. *)
Lemma whole_minute_single_point (x : Z) :
  (0 <= x < 2 ^ 53 - 1)%Z ->
  arange_len_f64 (f64_of_Z x) (f64_add (f64_of_Z x) (f64_of_Z 1)) (f64_of_Z 1)
  = Some 1%nat /\
  bin_edges_f64 [f64_of_Z x] (f64_of_Z 1) = Some [f64_of_Z x].
Proof.
  intro Hx.
  assert (Hlen : arange_len_f64 (f64_of_Z x)
                                (f64_add (f64_of_Z x) (f64_of_Z 1)) (f64_of_Z 1)
                 = Some 1%nat).
  { unfold arange_len_f64.
    rewrite f64_add_whole, f64_sub_whole by lia.
    replace (x + 1 - x)%Z with 1%Z by lia.
    vm_compute. reflexivity. }
  split; [exact Hlen|].
  unfold bin_edges_f64. cbn [series_min_f64 series_max_f64 fold_left].
  unfold arange_f64. rewrite Hlen. reflexivity.
Qed.

(** ** Edges and bin count on doubles *)

(** C1 at two inputs.  Peaks at 0.5, 0.8 and 1.1 minutes with the default
    width 0.2: there are four edges, the last of them,
    1.0999999999999999, is below [max(rt)] = 1.1, so the peak at 1.1
    gets the index 4 and is in none of the three bins, where
    [ceil((max - min) / w)], computed exactly or in doubles, is 4.
    Peaks at 0 and 0.1 with the width 0.05: there are four edges and
    three bins, where [ceil((max - min) / w)] is 2. *)
Theorem C1_edges_on_doubles :
  (let rt := map f64_of_Q [5 # 10; 8 # 10; 11 # 10] in
   let w := f64_of_Q (2 # 10) in
   exists edges,
     bin_edges_f64 rt w = Some edges /\
     List.length edges = 4%nat /\
     f64_ltb (last edges f64_zero) (series_max_f64 rt) = true /\
     digitize_f64 rt edges = [1; 2; 4]%nat /\
     List.length (binned_from_edges_f64 rt rt edges) = 3%nat /\
     Qceiling ((f64_value (series_max_f64 rt) - f64_value (series_min_f64 rt))
               / f64_value w) = 4%Z /\
     Qceiling (f64_value (f64_div (f64_sub (series_max_f64 rt) (series_min_f64 rt))
                                  w)) = 4%Z) /\
  (let rt := map f64_of_Q [0; 1 # 10] in
   let w := f64_of_Q (5 # 100) in
   exists edges,
     bin_edges_f64 rt w = Some edges /\
     List.length edges = 4%nat /\
     digitize_f64 rt edges = [1; 3]%nat /\
     List.length (binned_from_edges_f64 rt rt edges) = 3%nat /\
     Qceiling ((f64_value (series_max_f64 rt) - f64_value (series_min_f64 rt))
               / f64_value w) = 2%Z /\
     Qceiling (f64_value (f64_div (f64_sub (series_max_f64 rt) (series_min_f64 rt))
                                  w)) = 2%Z).
Proof.
  split; cbv zeta; eexists; (split; [vm_compute; reflexivity|]);
    vm_compute; repeat split.
Qed.

(** ** Normalisation *)

Lemma normalize_nonzero (binned : list Q) :
  ~ Qsum binned == 0 ->
  normalize binned
  = map (fun val => Finite (val / Qsum binned * 100)) binned.
Proof.
  intro Ht. unfold normalize. apply map_ext. intro val.
  now rewrite np_div_nonzero.
Qed.

Lemma relative_intensity_normalize (rt intensity : list Q) (w : Q) :
  relative_intensity rt intensity w = normalize (binned_intensity rt intensity w).
Proof. reflexivity. Qed.

(** C2, as far as it holds.  Take bin sums none of which is negative
    and which add up to more than 0 and to less than 2^63, so that no
    int64 sum wraps around and no double sum overflows.  In exact
    arithmetic every relative intensity is then a number between 0 and
    100, and together they are exactly 100; what the doubles add to
    this is the rounding of the division and of the product. *)
Theorem C2_percentages_in_exact_arithmetic (binned : list Q) :
  Forall (fun v => 0 <= v) binned ->
  0 < Qsum binned ->
  Qsum binned < inject_Z (2 ^ 63) ->
  Forall (fun r => exists q, r = Finite q /\ 0 <= q <= 100) (normalize binned) /\
  Qsum (finite_values (normalize binned)) == 100.
Proof.
  intros Hnn Hpos _.
  assert (Ht : ~ Qsum binned == 0) by (intro H; rewrite H in Hpos; lra).
  rewrite normalize_nonzero by exact Ht. split.
  - apply Forall_forall. intros r Hr. apply in_map_iff in Hr.
    destruct Hr as [v [<- Hv]]. eexists. split; [reflexivity|].
    assert (Hv0 : 0 <= v) by (rewrite Forall_forall in Hnn; now apply Hnn).
    assert (Hle : v <= Qsum binned).
    { apply Qsum_ge_member; [|exact Hv].
      intros u Hu. rewrite Forall_forall in Hnn. now apply Hnn. }
    assert (H1 : 0 <= v / Qsum binned).
    { apply Qle_shift_div_l; [exact Hpos|]. lra. }
    assert (H2 : v / Qsum binned <= 1).
    { apply Qle_shift_div_r; [exact Hpos|]. lra. }
    split; lra.
  - rewrite (finite_values_map_Finite (fun val => val / Qsum binned * 100)).
    rewrite (Qsum_map_scale _ (100 / Qsum binned)).
    + now field.
    + intro v. now field.
Qed.

Lemma C2_percentages_in_exact_arithmetic_witness :
  let binned := [10; 0; 30] in
  Forall (fun r => exists q, r = Finite q /\ 0 <= q <= 100) (normalize binned) /\
  Qsum (finite_values (normalize binned)) == 100.
Proof.
  apply (C2_percentages_in_exact_arithmetic [10; 0; 30]).
  - repeat constructor; discriminate.
  - vm_compute. reflexivity.
  - vm_compute. reflexivity.
Defined.

(** Two inputs at width 1.0.  Peaks at 0, 0 and 1.5 minutes with the
    float intensities 1e308, 1e308 and 1.0: the edges are 0, 1, 2, the
    first bin sum overflows to infinity, so the total is infinity, which
    is above 0, and the relative intensities are NaN and 0.0.  Peaks at
    0, 1.5 and 2.5 minutes with the float intensities 1e16, 3.0 and
    -1e16: the total comes out as 4.0 (1e16 + 3.0 rounds to 1e16 + 4),
    and the relative intensities 2.5e17, 75.0 and -2.5e17 sum to 75. *)
Lemma C2_counterexample :
  (let retention_time := map f64_of_Q [0; 0; 3 # 2] in
   let intensity := map f64_of_Z [10 ^ 308; 10 ^ 308; 1]%Z in
   let rt_merge_width := f64_of_Z 1 in
   exists h,
     histogram_f64 retention_time intensity rt_merge_width = Some h /\
     h_edges h = [f64_zero; f64_of_Z 1; f64_of_Z 2] /\
     h_binned h = [f64_inf; f64_of_Z 1] /\
     h_total h = f64_inf /\
     f64_ltb f64_zero (h_total h) = true /\
     h_relative h = [S754_nan; f64_zero]) /\
  (let retention_time := map f64_of_Q [0; 3 # 2; 5 # 2] in
   let intensity := map f64_of_Z [10 ^ 16; 3; - 10 ^ 16]%Z in
   let rt_merge_width := f64_of_Z 1 in
   exists h,
     histogram_f64 retention_time intensity rt_merge_width = Some h /\
     h_binned h = intensity /\
     h_total h = f64_of_Z 4 /\
     f64_ltb f64_zero (h_total h) = true /\
     h_relative h
     = map f64_of_Z [25 * 10 ^ 16; 75; - (25 * 10 ^ 16)]%Z /\
     Qsum (map f64_value (h_relative h)) == 75).
Proof.
  split; cbv zeta; eexists; (split; [vm_compute; reflexivity|]);
    vm_compute; repeat split.
Qed.

(** ** The two readings at the inputs used earlier

    The inputs at which the histogram was evaluated in exact arithmetic
    are made of whole numbers, halves and the width 1.0; on doubles they
    give the same edges, indices and values. *)

(** Peaks at 0 and 2 minutes with intensities 10 and 20, width 1.0: the
    edges are 0, 1, 2, the peak at 2 gets the index 3 and is in neither
    bin. *)
Lemma latest_peak_in_no_bin_on_doubles :
  histogram_f64 [f64_of_Z 0; f64_of_Z 2] [f64_of_Z 10; f64_of_Z 20] (f64_of_Z 1)
  = Some {| h_edges := [f64_of_Z 0; f64_of_Z 1; f64_of_Z 2];
            h_indices := [1; 3]%nat;
            h_binned := [f64_of_Z 10; f64_of_Z 0];
            h_total := f64_of_Z 10;
            h_relative := [f64_of_Z 100; f64_of_Z 0];
            h_centers := [f64_of_Q (1 # 2); f64_of_Q (3 # 2)] |}.
Proof. vm_compute. reflexivity. Qed.

(** Peaks at 0 and 1.5 minutes with intensity 0, width 1.0: the total is
    0 and both relative intensities are NaN. *)
Lemma zero_total_on_doubles :
  option_map h_relative
             (histogram_f64 [f64_of_Z 0; f64_of_Q (3 # 2)]
                            [f64_of_Z 0; f64_of_Z 0] (f64_of_Z 1))
  = Some [S754_nan; S754_nan].
Proof. vm_compute. reflexivity. Qed.

(** * Further properties of the code *)

(** ** Edges and centres (lines 105, 114, 117-122) *)

Lemma bin_centers_cons (a b : Q) (l : list Q) :
  bin_centers (a :: b :: l) = (a + b) / 2 :: bin_centers (b :: l).
Proof. reflexivity. Qed.

Lemma bin_centers_length (l : list Q) :
  List.length (bin_centers l) = (List.length l - 1)%nat.
Proof.
  destruct l as [|a l]; [reflexivity|].
  revert a. induction l as [|b l IH]; intro a; [reflexivity|].
  rewrite bin_centers_cons. cbn [List.length]. rewrite IH.
  cbn [List.length]. lia.
Qed.

Lemma bin_centers_nth (l : list Q) (i : nat) :
  (S i < List.length l)%nat ->
  nth i (bin_centers l) 0 = (nth i l 0 + nth (S i) l 0) / 2.
Proof.
  revert i. destruct l as [|a l]; intros i Hi; [simpl in Hi; lia|].
  revert a i Hi. induction l as [|b l IH]; intros a i Hi.
  - simpl in Hi. lia.
  - rewrite bin_centers_cons. destruct i as [|i]; [reflexivity|].
    cbn [nth]. rewrite IH by (simpl in *; lia). reflexivity.
Qed.

(** ** Which points the histogram counts (lines 105-110) *)

Lemma combine_columns_filter (g : Q -> nat) (P : nat -> bool)
    (data : list (Q * Q)) :
  map fst (filter (fun p => P (snd p))
                  (combine (map snd data) (map g (map fst data))))
  = map snd (filter (fun p => P (g (fst p))) data).
Proof.
  induction data as [|[x v] data IH]; [reflexivity|].
  cbn [map combine filter fst snd].
  destruct (P (g x)); cbn [map fst snd]; now rewrite IH.
Qed.

Lemma binned_iff_below_last_edge (rt : list Q) (w x : Q) :
  0 < w -> In x rt ->
  existsb (Nat.eqb (searchsorted_right (bin_edges rt w) x))
          (seq 1 (List.length (bin_edges rt w) - 1))
  = negb (Qle_bool (last (bin_edges rt w) 0) x).
Proof.
  intros Hw Hin.
  destruct (Qle_bool (last (bin_edges rt w) 0) x) eqn:E; cbn [negb].
  - apply Qle_bool_iff in E.
    destruct (point_at_last_edge_in_no_bin rt w x Hw E) as [_ Hout].
    destruct (existsb _ _) eqn:Ex; [|reflexivity].
    exfalso. apply Hout.
    apply existsb_exists in Ex. destruct Ex as [k [Hk Heq]].
    apply Nat.eqb_eq in Heq. now rewrite Heq.
  - apply Qle_bool_false in E.
    apply existsb_exists.
    exists (searchsorted_right (bin_edges rt w) x).
    split; [|apply Nat.eqb_refl].
    now apply point_below_last_edge_in_a_bin.
Qed.

(** ** The relative intensities (lines 110-111) *)

Lemma masked_map (f : Q -> Q) (intensity : list Q) (indices : list nat) (i : nat) :
  masked (map f intensity) indices i = map f (masked intensity indices i).
Proof.
  unfold masked. revert indices.
  induction intensity as [|v intensity IH]; intros [|j indices];
    try reflexivity.
  cbn [map combine filter snd].
  destruct (Nat.eqb j i); cbn [map fst]; now rewrite IH.
Qed.

Lemma Qsum_map_mult (c : Q) (l : list Q) : Qsum (map (Qmult c) l) == c * Qsum l.
Proof.
  rewrite (Qsum_map_scale (Qmult c) c) by (intro v; ring). ring.
Qed.

Lemma masked_sum_scaled (c : Q) (intensity : list Q) (indices : list nat)
    (i : nat) :
  masked_sum (map (Qmult c) intensity) indices i
  == c * masked_sum intensity indices i.
Proof.
  unfold masked_sum. rewrite masked_map. apply Qsum_map_mult.
Qed.

Lemma total_intensity_scaled (c : Q) (rt intensity : list Q) (w : Q) :
  total_intensity rt (map (Qmult c) intensity) w
  == c * total_intensity rt intensity w.
Proof.
  unfold total_intensity, binned_intensity.
  rewrite (Qsum_map_ext _ (fun i => c * masked_sum intensity (bin_indices rt w) i))
    by (intro i; apply masked_sum_scaled).
  rewrite <- Qsum_map_mult. now rewrite map_map.
Qed.

Lemma np_div_scaled (c v t v' t' : Q) :
  0 < c -> v' == c * v -> t' == c * t ->
  npfloat_eq (np_div v' t') (np_div v t).
Proof.
  intros Hc Hv Ht. unfold np_div.
  assert (Hzero : forall a a', a' == c * a -> Qeq_bool a' 0 = Qeq_bool a 0).
  { intros a a' Ha.
    destruct (Qeq_bool a 0) eqn:E.
    - apply Qeq_bool_eq in E. apply Qeq_eq_bool. rewrite Ha, E. ring.
    - apply Qeq_bool_neq in E.
      destruct (Qeq_bool a' 0) eqn:E'; [|reflexivity].
      apply Qeq_bool_eq in E'. rewrite Ha in E'.
      apply Qmult_integral in E'. destruct E' as [E' | E'].
      + rewrite E' in Hc. now apply Qlt_irrefl in Hc.
      + contradiction. }
  rewrite (Hzero t t' Ht), (Hzero v v' Hv).
  destruct (Qeq_bool t 0) eqn:Et.
  - destruct (Qeq_bool v 0); [exact I|].
    assert (Hsign : Qle_bool 0 v' = Qle_bool 0 v).
    { destruct (Qle_bool 0 v) eqn:E.
      - apply Qle_bool_iff in E. apply Qle_bool_iff. rewrite Hv.
        apply Qmult_le_0_compat; [lra | exact E].
      - apply Qle_bool_false in E.
        destruct (Qle_bool 0 v') eqn:E'; [|reflexivity].
        apply Qle_bool_iff in E'. rewrite Hv in E'.
        assert (H : c * v < c * 0)
          by (rewrite !(Qmult_comm c); now apply Qmult_lt_compat_r).
        exfalso. lra. }
    rewrite Hsign. now destruct (Qle_bool 0 v).
  - apply Qeq_bool_neq in Et. cbn [npfloat_eq].
    rewrite Hv, Ht. field. split; [exact Et|].
    intro H. rewrite H in Hc. now apply Qlt_irrefl in Hc.
Qed.

Lemma np_scale_eq (x y : npfloat) (c : Q) :
  npfloat_eq x y -> npfloat_eq (np_scale x c) (np_scale y c).
Proof.
  destruct x, y; cbn; try tauto. intro H. now rewrite H.
Qed.

Lemma Forall2_map_same {A B : Type} (R : B -> B -> Prop) (F G : A -> B)
    (l : list A) :
  (forall a, R (F a) (G a)) -> Forall2 R (map F l) (map G l).
Proof.
  intro H. induction l as [|a l IH]; simpl; constructor; trivial.
Qed.

(** X8.  Multiplying every intensity by the same positive factor leaves
    every relative intensity unchanged. *)
Theorem X8_relative_intensity_ignores_the_unit (rt intensity : list Q)
    (w c : Q) :
  0 < c ->
  Forall2 npfloat_eq
          (relative_intensity rt (map (Qmult c) intensity) w)
          (relative_intensity rt intensity w).
Proof.
  intro Hc. unfold relative_intensity, binned_intensity.
  rewrite !map_map. apply Forall2_map_same. intro i.
  apply np_scale_eq.
  apply (np_div_scaled c); [exact Hc | apply masked_sum_scaled |].
  apply total_intensity_scaled.
Qed.

Lemma X8_relative_intensity_ignores_the_unit_witness :
  Forall2 npfloat_eq
          (relative_intensity [0; 1 # 2; 2] (map (Qmult 1000) [10; 5; 20]) 1)
          (relative_intensity [0; 1 # 2; 2] [10; 5; 20] 1).
Proof.
  apply (X8_relative_intensity_ignores_the_unit [0; 1 # 2; 2] [10; 5; 20] 1 1000).
  reflexivity.
Defined.

(** ** The five ranges (lines 126-131) *)

(** X9.  [pd.cut] with these bins reads the value against the
    thresholds 80, 60, 40, 20 and 0 from the top: a value on a boundary
    belongs to the range that starts there, and a negative value gets no
    label. *)
Theorem X9_pd_cut_thresholds (x : Q) :
  pd_cut x bins bin_labels
  = if Qle_bool 80 x then Some "80+ min"%string
    else if Qle_bool 60 x then Some "60-80 min"%string
    else if Qle_bool 40 x then Some "40-60 min"%string
    else if Qle_bool 20 x then Some "20-40 min"%string
    else if Qle_bool 0 x then Some "0-20 min"%string
    else None.
Proof.
  rewrite pd_cut_bins. unfold in_range, edge_le.
  destruct (Qle_bool 0 x) eqn:E0; destruct (Qle_bool 20 x) eqn:E20;
  destruct (Qle_bool 40 x) eqn:E40; destruct (Qle_bool 60 x) eqn:E60;
  destruct (Qle_bool 80 x) eqn:E80; simpl; try reflexivity;
  repeat match goal with
         | H : Qle_bool _ _ = true |- _ => apply Qle_bool_iff in H
         | H : Qle_bool _ _ = false |- _ => apply Qle_bool_false in H
         end;
  exfalso; lra.
Qed.

Lemma ranges_cover_nonnegative (x v : Q) :
  (if in_range 0 (At 20) x then v else 0)
  + (if in_range 20 (At 40) x then v else 0)
  + (if in_range 40 (At 60) x then v else 0)
  + (if in_range 60 (At 80) x then v else 0)
  + (if in_range 80 Infinity x then v else 0)
  == if Qle_bool 0 x then v else 0.
Proof.
  unfold in_range, edge_le.
  destruct (Qle_bool 0 x) eqn:E0; destruct (Qle_bool 20 x) eqn:E20;
  destruct (Qle_bool 40 x) eqn:E40; destruct (Qle_bool 60 x) eqn:E60;
  destruct (Qle_bool 80 x) eqn:E80; simpl; try ring;
  repeat match goal with
         | H : Qle_bool _ _ = true |- _ => apply Qle_bool_iff in H
         | H : Qle_bool _ _ = false |- _ => apply Qle_bool_false in H
         end;
  exfalso; lra.
Qed.

(** X10.  In exact arithmetic, the five range sums add up to the
    intensities of the points whose retention time is at least 0; a
    point with a negative retention time is in none of them. *)
Theorem X10_range_sums_leave_out_negative_times (observed : bool)
    (data : list (Q * Q)) :
  Qsum (map snd (intensity_sum observed (col_rt data) (col_intensity data)))
  == Qsum (map snd (filter (fun p => Qle_bool 0 (fst p)) data)).
Proof.
  rewrite intensity_sum_ranges. cbn [map snd].
  rewrite !Qsum_cons, Qsum_nil.
  induction data as [|[x v] data IH].
  - reflexivity.
  - unfold col_rt, col_intensity in *. cbn [map fst snd filter] in *.
    rewrite !range_sum_cons.
    assert (Hhead : Qsum (map snd (if Qle_bool 0 x
                                   then (x, v) :: filter (fun p => Qle_bool 0 (fst p)) data
                                   else filter (fun p => Qle_bool 0 (fst p)) data))
                    == (if Qle_bool 0 x then v else 0)
                       + Qsum (map snd (filter (fun p => Qle_bool 0 (fst p)) data))).
    { destruct (Qle_bool 0 x); cbn [map snd]; [apply Qsum_cons | ring]. }
    rewrite Hhead, <- IH, <- (ranges_cover_nonnegative x v). ring.
Qed.

(** ** From the payload to the two columns (lines 96-102) *)

Lemma complete_payload_cells (data : list json_object) (rows : list (Q * Q)) :
  Forall2 (fun o p => dict_get o "rt" = Some (fst p) /\
                      dict_get o "intensity" = Some (snd p)) data rows ->
  map (fun o => dict_get o "rt") data = map (fun p => Some (fst p)) rows /\
  map (fun o => dict_get o "intensity") data = map (fun p => Some (snd p)) rows.
Proof.
  induction 1 as [|o p data rows [Hrt Hint] _ [IH1 IH2]]; [now split|].
  cbn [map]. now rewrite Hrt, Hint, IH1, IH2.
Qed.

(** X11.  When every record of the payload has an [rt] and an
    [intensity], the two columns hold exactly these values, record by
    record and in the payload's order, whatever other fields the records
    carry; on a payload that is not empty neither column lookup raises. *)
Theorem X11_columns_of_a_complete_payload (data : list json_object)
    (rows : list (Q * Q)) :
  Forall2 (fun o p => dict_get o "rt" = Some (fst p) /\
                      dict_get o "intensity" = Some (snd p)) data rows ->
  peak_rows data = rows /\
  (rows <> [] ->
   getitem data "rt" = inr (map (fun p => Some (fst p)) rows) /\
   getitem data "intensity" = inr (map (fun p => Some (snd p)) rows)).
Proof.
  intro H. split.
  - unfold peak_rows.
    induction H as [|o [x v] data rows [Hrt Hint] _ IH]; [reflexivity|].
    cbn [map skipna fst snd] in *. now rewrite Hrt, Hint, IH.
  - intro Hne.
    destruct (complete_payload_cells data rows H) as [Hc1 Hc2].
    assert (Hcols : has_column data "rt" = true
                    /\ has_column data "intensity" = true).
    { destruct H as [|o p data rows [Hrt Hint] _]; [contradiction|].
      unfold has_column. cbn [existsb]. now rewrite Hrt, Hint. }
    destruct Hcols as [Hh1 Hh2]. unfold getitem.
    now rewrite Hh1, Hh2, Hc1, Hc2.
Qed.

Lemma X11_columns_of_a_complete_payload_witness :
  let rows := [(5, 10); (15, 20); (101 # 4, 30)] in
  peak_rows demo_peaks = rows /\
  (rows <> [] ->
   getitem demo_peaks "rt" = inr (map (fun p => Some (fst p)) rows) /\
   getitem demo_peaks "intensity" = inr (map (fun p => Some (snd p)) rows)).
Proof.
  apply (X11_columns_of_a_complete_payload
           demo_peaks [(5, 10); (15, 20); (101 # 4, 30)]).
  repeat constructor.
Defined.

(** ** The loop over the selected samples (lines 86-150) *)

Lemma loop_body_cases (env : Env) (f : string) (st : Page) :
  (exists e, loop_body env f st = inl e) \/
  loop_body env f st
  = inr {| fig := fig st ++ [sample_trace env f];
           pie_charts := pie_charts st ++ [sample_pie env f];
           warnings := warnings st |} \/
  loop_body env f st
  = inr {| fig := fig st;
           pie_charts := pie_charts st;
           warnings := warnings st ++ [sample_warning env f] |}.
Proof.
  destruct (fetch_ok env f) eqn:Hok.
  - destruct (has_peak_columns (json (response_of env f))) eqn:Hcols.
    + right. left. now apply loop_body_success.
    + left. eexists. now apply loop_body_missing_column.
  - right. right. now apply loop_body_failure.
Qed.

Lemma for_each_fid_counts (env : Env) (fids : list string) :
  forall st,
    List.length (fig st) = List.length (pie_charts st) ->
    match for_each_fid env fids st with
    | Finished st' =>
        List.length (fig st') = List.length (pie_charts st') /\
        (List.length (fig st') + List.length (warnings st')
         = List.length (fig st) + List.length (warnings st) + List.length fids)%nat
    | Raised _ st' =>
        List.length (fig st') = List.length (pie_charts st') /\
        (List.length (fig st') + List.length (warnings st')
         < List.length (fig st) + List.length (warnings st) + List.length fids)%nat
    end.
Proof.
  induction fids as [|f fids IH]; intros st Hst; cbn [for_each_fid].
  - split; [exact Hst | simpl; lia].
  - destruct (loop_body_cases env f st) as [[e He] | [He | He]]; rewrite He.
    + split; [exact Hst | simpl; lia].
    + match goal with |- context [for_each_fid env fids ?s] =>
        specialize (IH s); destruct (for_each_fid env fids s) end;
        cbn [fig pie_charts warnings] in IH; rewrite !length_app in IH;
        cbn [List.length] in *;
        (destruct IH as [IH1 IH2]; [lia | split; [exact IH1 | lia]]).
    + match goal with |- context [for_each_fid env fids ?s] =>
        specialize (IH s); destruct (for_each_fid env fids s) end;
        cbn [fig pie_charts warnings] in IH; rewrite !length_app in IH;
        cbn [List.length] in *;
        (destruct IH as [IH1 IH2]; [lia | split; [exact IH1 | lia]]).
Qed.

(** X12.  However a run ends, its page holds as many pies as traces.
    A run that finishes has handled every selected sample, each with a
    trace and a pie or with a warning; a run that raises has handled
    fewer samples than were selected. *)
Theorem X12_traces_and_pies_go_together (env : Env) (fids : list string) :
  match on_confirm env fids with
  | Finished st =>
      List.length (fig st) = List.length (pie_charts st) /\
      (fids <> [] ->
       (List.length (fig st) + List.length (warnings st) = List.length fids)%nat)
  | Raised _ st =>
      List.length (fig st) = List.length (pie_charts st) /\
      (List.length (fig st) + List.length (warnings st) < List.length fids)%nat
  end.
Proof.
  unfold on_confirm. destruct fids as [|f fids].
  - split; [reflexivity | intro H; contradiction].
  - pose proof (for_each_fid_counts env (f :: fids) empty_page eq_refl) as H.
    destruct (for_each_fid env (f :: fids) empty_page);
      destruct H as [H1 H2]; split; trivial.
Qed.

(** X14.  A fetch that succeeds with an empty peak list stops the run
    with [KeyError 'rt']: for the first selected sample nothing has been
    drawn and no warning given. *)
Theorem X14_empty_peak_list_raises (env : Env) (f : string)
    (rest : list string) :
  fetch_ok env f = true ->
  json (response_of env f) = [] ->
  on_confirm env (f :: rest) = Raised (KeyError "rt") empty_page.
Proof.
  intros Hok Hempty. unfold on_confirm. cbn [for_each_fid].
  rewrite loop_body_missing_column; trivial.
  - now rewrite Hempty.
  - now rewrite Hempty.
Qed.

Lemma X14_empty_peak_list_raises_witness :
  on_confirm (demo_env (fun _ => {| status_code := 200; json := [] |}))
             ["F1"; "F2"]%string
  = Raised (KeyError "rt") empty_page.
Proof.
  apply (X14_empty_peak_list_raises
           (demo_env (fun _ => {| status_code := 200; json := [] |}))
           "F1"%string ["F2"%string]); reflexivity.
Defined.

(** ** The grid of pie charts (lines 171-175) *)

Lemma plot_in_length {A : Type} (cols : list (list A)) (c : nat) (x : A) :
  List.length (plot_in cols c x) = List.length cols.
Proof.
  revert c. induction cols as [|col cols IH]; intros [|c]; simpl; auto.
Qed.

Lemma plot_in_nth {A : Type} (cols : list (list A)) (c c' : nat) (x : A) :
  (c' < List.length cols)%nat ->
  nth c (plot_in cols c' x) []
  = if Nat.eqb c c' then (nth c cols [] ++ [x])%list else nth c cols [].
Proof.
  revert c c'. induction cols as [|col cols IH]; intros c c' Hc'.
  - simpl in Hc'. lia.
  - destruct c' as [|c']; destruct c as [|c]; simpl; try reflexivity.
    apply IH. simpl in Hc'. lia.
Qed.

Lemma plot_in_total {A : Type} (cols : list (list A)) (c : nat) (x : A) :
  (c < List.length cols)%nat ->
  List.length (List.concat (plot_in cols c x)) = S (List.length (List.concat cols)).
Proof.
  revert c. induction cols as [|col cols IH]; intros c Hc.
  - simpl in Hc. lia.
  - destruct c as [|c]; simpl.
    + rewrite !length_app. simpl. lia.
    + rewrite !length_app, IH by (simpl in Hc; lia). lia.
Qed.

(** The loop only adds below what a column already shows. *)
Lemma show_from_extends {A : Type} (charts : list A) :
  forall i cols c,
    List.length cols = 5%nat ->
    exists more, nth c (show_from i charts cols) [] = (nth c cols [] ++ more)%list.
Proof.
  induction charts as [|x charts IH]; intros i cols c Hlen; cbn [show_from].
  - exists []. now rewrite app_nil_r.
  - destruct (IH (S i) (plot_in cols (i mod 5) x) c) as [more Hmore].
    { now rewrite plot_in_length. }
    rewrite Hmore, plot_in_nth
      by (rewrite Hlen; apply Nat.mod_upper_bound; discriminate).
    destruct (Nat.eqb c (i mod 5)).
    + exists ([x] ++ more)%list. now rewrite <- app_assoc.
    + now exists more.
Qed.

Lemma show_from_shape {A : Type} (charts : list A) :
  forall i cols,
    List.length cols = 5%nat ->
    List.length (show_from i charts cols) = 5%nat /\
    List.length (List.concat (show_from i charts cols))
    = (List.length (List.concat cols) + List.length charts)%nat.
Proof.
  induction charts as [|x charts IH]; intros i cols Hlen; cbn [show_from].
  - split; [exact Hlen | simpl; lia].
  - destruct (IH (S i) (plot_in cols (i mod 5) x)) as [H1 H2].
    { now rewrite plot_in_length. }
    split; [exact H1|].
    rewrite H2, plot_in_total
      by (rewrite Hlen; apply Nat.mod_upper_bound; discriminate).
    simpl. lia.
Qed.

Lemma next_slot (i c : nat) :
  (c < 5)%nat ->
  ((S i + 4 - c) / 5
   = if Nat.eqb c (i mod 5) then S ((i + 4 - c) / 5) else (i + 4 - c) / 5)%nat.
Proof.
  intro Hc.
  pose proof (Nat.div_mod_eq i 5) as Hi.
  pose proof (Nat.mod_upper_bound i 5 ltac:(discriminate)) as Hr.
  set (q := (i / 5)%nat) in *. set (r := (i mod 5)%nat) in *.
  destruct (Nat.eqb_spec c r) as [-> | Hne].
  - rewrite <- (Nat.div_unique (S i + 4 - r) 5 (S q) 0) by lia.
    rewrite <- (Nat.div_unique (i + 4 - r) 5 q 4) by lia.
    reflexivity.
  - destruct (Nat.lt_ge_cases c r) as [Hlt | Hge].
    + rewrite <- (Nat.div_unique (S i + 4 - c) 5 (S q) (r - c)) by lia.
      rewrite <- (Nat.div_unique (i + 4 - c) 5 (S q) (r - c - 1)) by lia.
      reflexivity.
    + rewrite <- (Nat.div_unique (S i + 4 - c) 5 q (S r + 4 - c)) by lia.
      rewrite <- (Nat.div_unique (i + 4 - c) 5 q (r + 4 - c)) by lia.
      reflexivity.
Qed.

Lemma slot_of_index (i : nat) : ((i + 4 - i mod 5) / 5 = i / 5)%nat.
Proof.
  pose proof (Nat.div_mod_eq i 5) as Hi.
  pose proof (Nat.mod_upper_bound i 5 ltac:(discriminate)) as Hr.
  symmetry. apply (Nat.div_unique _ 5 _ 4); lia.
Qed.

Lemma show_from_position {A : Type} (d : A) (charts : list A) :
  forall i cols k,
    List.length cols = 5%nat ->
    (forall c, (c < 5)%nat ->
               List.length (nth c cols []) = ((i + 4 - c) / 5)%nat) ->
    (k < List.length charts)%nat ->
    nth ((i + k) / 5) (nth ((i + k) mod 5) (show_from i charts cols) []) d
    = nth k charts d.
Proof.
  induction charts as [|x charts IH]; intros i cols k Hlen Hfill Hk.
  - simpl in Hk. lia.
  - cbn [show_from].
    assert (Hmod : (i mod 5 < 5)%nat) by (apply Nat.mod_upper_bound; discriminate).
    assert (Hlen' : List.length (plot_in cols (i mod 5) x) = 5%nat)
      by now rewrite plot_in_length.
    assert (Hfill' : forall c, (c < 5)%nat ->
                List.length (nth c (plot_in cols (i mod 5) x) [])
                = ((S i + 4 - c) / 5)%nat).
    { intros c Hc. rewrite plot_in_nth by (rewrite Hlen; exact Hmod).
      rewrite next_slot by exact Hc.
      destruct (Nat.eqb c (i mod 5)).
      - rewrite length_app, Hfill by exact Hc. simpl. lia.
      - now apply Hfill. }
    destruct k as [|k].
    + rewrite Nat.add_0_r.
      destruct (show_from_extends charts (S i) (plot_in cols (i mod 5) x)
                                  (i mod 5) Hlen') as [more Hmore].
      rewrite Hmore, plot_in_nth by (rewrite Hlen; exact Hmod).
      rewrite Nat.eqb_refl, <- app_assoc.
      rewrite app_nth2 by (rewrite Hfill, slot_of_index by exact Hmod; lia).
      rewrite Hfill, slot_of_index by exact Hmod.
      now rewrite Nat.sub_diag.
    + replace (i + S k)%nat with (S i + k)%nat by lia.
      apply IH; trivial. simpl in Hk. lia.
Qed.

(** X15.  The pies are laid out in five columns: the pie at position
    [k] of the list is shown in column [k % 5], as the [k // 5]-th chart
    from the top, and the columns together show as many charts as there
    are pies, so each pie is shown once. *)
Theorem X15_pies_fill_a_grid_of_five_columns {A : Type} (d : A)
    (charts : list A) :
  List.length (show_in_columns charts) = 5%nat /\
  List.length (List.concat (show_in_columns charts)) = List.length charts /\
  forall k, (k < List.length charts)%nat ->
            nth (k / 5) (nth (k mod 5) (show_in_columns charts) []) d
            = nth k charts d.
Proof.
  unfold show_in_columns.
  destruct (show_from_shape charts 0 (repeat [] 5) eq_refl) as [H1 H2].
  split; [exact H1 | split; [exact H2|]].
  intros k Hk.
  apply (show_from_position d charts 0 (repeat [] 5) k); trivial.
  intros c Hc.
  do 5 (destruct c as [|c]; [reflexivity|]). lia.
Qed.

(** ** The selection table (lines 45-62) *)

Lemma in_selection_table (df : list Sample) (selected : list string)
    (row : Sample) (ticked : bool) :
  In (row, ticked) (selection_table df selected) <->
  In row df /\ ticked = existsb (String.eqb (fid row)) selected.
Proof.
  unfold selection_table, checkbox_column.
  induction df as [|r df IH]; simpl.
  - tauto.
  - rewrite IH. split.
    + intros [H | [H1 H2]].
      * inversion H; subst. split; [now left | reflexivity].
      * split; [now right | exact H2].
    + intros [[-> | H1] H2].
      * left. now rewrite H2.
      * right. now split.
Qed.

(** X16.  Saving the table as it was shown, with no box changed, stores
    the ids that were selected before and occur in the catalogue, each
    once: a selected id that the catalogue no longer has is dropped. *)
Theorem X16_saving_an_untouched_table (df : list Sample)
    (selected : list string) (f : string) :
  NoDup (save_selection (selection_table df selected)) /\
  (In f (save_selection (selection_table df selected)) <->
   In f selected /\ exists row, In row df /\ fid row = f).
Proof.
  unfold save_selection, to_set. split; [apply NoDup_nodup|].
  rewrite nodup_In. unfold checked_fids. rewrite in_map_iff. split.
  - intros [[row ticked] [Hf Hin]]. cbn [fst] in Hf.
    apply filter_In in Hin. destruct Hin as [Hin Hticked]. cbn [snd] in Hticked.
    apply in_selection_table in Hin. destruct Hin as [Hrow Heq].
    rewrite Hticked in Heq. symmetry in Heq.
    apply existsb_exists in Heq. destruct Heq as [g [Hg Hfg]].
    apply String.eqb_eq in Hfg. split.
    + rewrite <- Hf, Hfg. exact Hg.
    + exists row. split; [exact Hrow | exact Hf].
  - intros [Hsel [row [Hrow Hf]]].
    exists (row, true). split; [exact Hf|].
    apply filter_In. split; [|reflexivity].
    apply in_selection_table. split; [exact Hrow|].
    symmetry. apply existsb_exists. exists f. split; [exact Hsel|].
    apply String.eqb_eq. exact Hf.
Qed.

(** ** The request URL (line 91) *)

Lemma append_cancel_l (s a b : string) :
  (s ++ a = s ++ b)%string -> a = b.
Proof.
  induction s as [|c s IH]; simpl; intro H; [exact H|].
  injection H as H. now apply IH.
Qed.

Lemma append_length (a b : string) :
  String.length (a ++ b) = (String.length a + String.length b)%nat.
Proof.
  induction a as [|c a IH]; simpl; [reflexivity | now rewrite IH].
Qed.

Lemma append_cancel_same_length (a b t u : string) :
  String.length t = String.length u ->
  (a ++ t = b ++ u)%string -> a = b /\ t = u.
Proof.
  intro Hlen. revert b.
  induction a as [|c a IH]; intros [|c' b] H; simpl in H.
  - now split.
  - exfalso. apply (f_equal String.length) in H. simpl in H.
    rewrite append_length in H. lia.
  - exfalso. apply (f_equal String.length) in H. simpl in H.
    rewrite append_length in H. lia.
  - injection H as Hc H. destruct (IH b H) as [-> ->]. now subst.
Qed.

(** X17.  Two requests go to the same URL only if they are for the
    same sample in the same detection mode. *)
Theorem X17_endpoint_is_injective (f1 f2 : string) (m1 m2 : mode) :
  endpoint f1 m1 = endpoint f2 m2 -> f1 = f2 /\ m1 = m2.
Proof.
  unfold endpoint. intro H.
  apply append_cancel_l in H. apply append_cancel_l in H.
  apply append_cancel_same_length in H.
  - destruct H as [Hf Hm]. split; [exact Hf|].
    destruct m1, m2; trivial; discriminate.
  - now destruct m1, m2.
Qed.

Lemma X17_endpoint_is_injective_witness :
  "F1"%string = "F1"%string /\ pos = pos.
Proof.
  apply (X17_endpoint_is_injective "F1" "F1" pos pos). reflexivity.
Defined.

(** ** The order of the peaks does not matter (lines 101-131) *)

Lemma Qsum_Permutation (l l' : list Q) : Permutation l l' -> Qsum l == Qsum l'.
Proof.
  induction 1 as [|x l l' _ IH|x y l|l l' l'' _ IH1 _ IH2].
  - reflexivity.
  - now rewrite !Qsum_cons, IH.
  - rewrite !Qsum_cons. ring.
  - now rewrite IH1.
Qed.

Lemma filter_Permutation {A : Type} (f : A -> bool) (l l' : list A) :
  Permutation l l' -> Permutation (filter f l) (filter f l').
Proof.
  induction 1 as [|x l l' _ IH|x y l|l l' l'' _ IH1 _ IH2]; simpl.
  - constructor.
  - destruct (f x); [now constructor | exact IH].
  - destruct (f x), (f y); try reflexivity. constructor.
  - now transitivity (filter f l').
Qed.

Lemma selected_sum_Permutation (f : Q * Q -> bool) (data data' : list (Q * Q)) :
  Permutation data data' ->
  Qsum (map snd (filter f data)) == Qsum (map snd (filter f data')).
Proof.
  intro H. apply Qsum_Permutation, Permutation_map, filter_Permutation, H.
Qed.

Lemma range_sum_rows (lo : Q) (hi : edge) (data : list (Q * Q)) :
  range_sum lo hi (col_rt data) (col_intensity data)
  = Qsum (map snd (filter (fun p => in_range lo hi (fst p)) data)).
Proof.
  unfold range_sum, col_rt, col_intensity. do 2 f_equal.
  induction data as [|[x v] data IH]; [reflexivity|].
  cbn [map combine filter fst snd]. now rewrite IH.
Qed.

(** X18.  In exact arithmetic, the five range sums do not depend on the
    order in which the payload lists the peaks. *)
Theorem X18_range_sums_ignore_the_order (observed : bool)
    (data data' : list (Q * Q)) :
  Permutation data data' ->
  Forall2 Qeq
          (map snd (intensity_sum observed (col_rt data) (col_intensity data)))
          (map snd (intensity_sum observed (col_rt data') (col_intensity data'))).
Proof.
  intro H. rewrite !intensity_sum_ranges. cbn [map snd].
  rewrite !range_sum_rows.
  repeat (constructor; [now apply selected_sum_Permutation|]).
  constructor.
Qed.

Lemma X18_range_sums_ignore_the_order_witness :
  Forall2 Qeq
          (map snd (intensity_sum true (col_rt [(10, 5); (90, 10); (30, 5)])
                                  (col_intensity [(10, 5); (90, 10); (30, 5)])))
          (map snd (intensity_sum true (col_rt [(90, 10); (10, 5); (30, 5)])
                                  (col_intensity [(90, 10); (10, 5); (30, 5)]))).
Proof.
  apply (X18_range_sums_ignore_the_order
           true [(10, 5); (90, 10); (30, 5)] [(90, 10); (10, 5); (30, 5)]).
  apply perm_swap.
Defined.

Lemma fold_Qmin_attained (xs : list Q) :
  forall a, fold_left Qmin xs a == a \/
            exists x, In x xs /\ fold_left Qmin xs a == x.
Proof.
  induction xs as [|x xs IH]; intro a; simpl.
  - left. reflexivity.
  - destruct (IH (Qmin a x)) as [H | [y [Hy H]]].
    + destruct (Q.min_spec a x) as [[_ Hm] | [_ Hm]].
      * left. now rewrite H.
      * right. exists x. split; [now left | now rewrite H].
    + right. exists y. split; [now right | exact H].
Qed.

Lemma fold_Qmax_attained (xs : list Q) :
  forall a, fold_left Qmax xs a == a \/
            exists x, In x xs /\ fold_left Qmax xs a == x.
Proof.
  induction xs as [|x xs IH]; intro a; simpl.
  - left. reflexivity.
  - destruct (IH (Qmax a x)) as [H | [y [Hy H]]].
    + destruct (Q.max_spec a x) as [[_ Hm] | [_ Hm]].
      * right. exists x. split; [now left | now rewrite H].
      * left. now rewrite H.
    + right. exists y. split; [now right | exact H].
Qed.

Lemma series_min_attained (s : list Q) :
  s <> [] -> exists x, In x s /\ series_min s == x.
Proof.
  destruct s as [|a s]; [contradiction|]. intros _. simpl.
  destruct (fold_Qmin_attained s a) as [H | [x [Hx H]]].
  - exists a. split; [now left | exact H].
  - exists x. split; [now right | exact H].
Qed.

Lemma series_max_attained (s : list Q) :
  s <> [] -> exists x, In x s /\ series_max s == x.
Proof.
  destruct s as [|a s]; [contradiction|]. intros _. simpl.
  destruct (fold_Qmax_attained s a) as [H | [x [Hx H]]].
  - exists a. split; [now left | exact H].
  - exists x. split; [now right | exact H].
Qed.

Lemma series_min_Permutation (s s' : list Q) :
  Permutation s s' -> series_min s == series_min s'.
Proof.
  intro H. destruct s as [|a s].
  - apply Permutation_nil in H. now subst.
  - assert (Hne : a :: s <> []) by discriminate.
    assert (Hne' : s' <> []).
    { intro E. subst. apply Permutation_sym, Permutation_nil in H. discriminate. }
    destruct (series_min_attained _ Hne) as [x [Hx Ex]].
    destruct (series_min_attained _ Hne') as [y [Hy Ey]].
    apply Qle_antisym.
    + rewrite Ey. apply series_min_le.
      eapply Permutation_in; [apply Permutation_sym, H | exact Hy].
    + rewrite Ex. apply series_min_le.
      eapply Permutation_in; [exact H | exact Hx].
Qed.

Lemma series_max_Permutation (s s' : list Q) :
  Permutation s s' -> series_max s == series_max s'.
Proof.
  intro H. destruct s as [|a s].
  - apply Permutation_nil in H. now subst.
  - assert (Hne : a :: s <> []) by discriminate.
    assert (Hne' : s' <> []).
    { intro E. subst. apply Permutation_sym, Permutation_nil in H. discriminate. }
    destruct (series_max_attained _ Hne) as [x [Hx Ex]].
    destruct (series_max_attained _ Hne') as [y [Hy Ey]].
    apply Qle_antisym.
    + rewrite Ex. apply series_max_ge.
      eapply Permutation_in; [exact H | exact Hx].
    + rewrite Ey. apply series_max_ge.
      eapply Permutation_in; [apply Permutation_sym, H | exact Hy].
Qed.

Lemma arange_compat (a a' b b' s : Q) :
  a == a' -> b == b' ->
  arange_len a b s = arange_len a' b' s /\
  Forall2 Qeq (arange a b s) (arange a' b' s).
Proof.
  intros Ha Hb.
  assert (Hlen : arange_len a b s = arange_len a' b' s).
  { unfold arange_len. f_equal. apply Qceiling_comp. now rewrite Ha, Hb. }
  split; [exact Hlen|].
  unfold arange. rewrite <- Hlen.
  apply Forall2_map_same. intro i. now rewrite Ha.
Qed.

Lemma bin_edges_Permutation (rt rt' : list Q) (w : Q) :
  Permutation rt rt' ->
  List.length (bin_edges rt w) = List.length (bin_edges rt' w) /\
  Forall2 Qeq (bin_edges rt w) (bin_edges rt' w).
Proof.
  intro H. unfold bin_edges. rewrite !arange_length.
  apply arange_compat.
  - now apply series_min_Permutation.
  - now rewrite (series_max_Permutation rt rt' H).
Qed.

Lemma searchsorted_right_compat (edges edges' : list Q) (x : Q) :
  Forall2 Qeq edges edges' ->
  searchsorted_right edges x = searchsorted_right edges' x.
Proof.
  induction 1 as [|e e' edges edges' He _ IH]; simpl; [reflexivity|].
  rewrite (Qleb_comp e e' He x x (Qeq_refl x)), IH. reflexivity.
Qed.

Lemma masked_sum_rows (g : Q -> nat) (data : list (Q * Q)) (i : nat) :
  masked_sum (col_intensity data) (map g (col_rt data)) i
  = Qsum (map snd (filter (fun p => Nat.eqb (g (fst p)) i) data)).
Proof.
  unfold masked_sum, masked, col_intensity, col_rt. f_equal.
  apply (combine_columns_filter g (fun j => Nat.eqb j i)).
Qed.

Lemma binned_intensity_Permutation (data data' : list (Q * Q)) (w : Q) :
  Permutation data data' ->
  Forall2 Qeq
          (binned_intensity (col_rt data) (col_intensity data) w)
          (binned_intensity (col_rt data') (col_intensity data') w).
Proof.
  intro H.
  assert (Hrt : Permutation (col_rt data) (col_rt data'))
    by now apply Permutation_map.
  destruct (bin_edges_Permutation _ _ w Hrt) as [Hlen Hedges].
  unfold binned_intensity, bin_indices, digitize.
  rewrite <- Hlen. apply Forall2_map_same. intro i.
  rewrite !masked_sum_rows.
  rewrite (filter_ext
             (fun p => Nat.eqb (searchsorted_right (bin_edges (col_rt data') w) (fst p)) i)
             (fun p => Nat.eqb (searchsorted_right (bin_edges (col_rt data) w) (fst p)) i))
    by (intro p; now rewrite (searchsorted_right_compat _ _ (fst p) Hedges)).
  now apply selected_sum_Permutation.
Qed.

Lemma Qsum_Forall2 (l l' : list Q) : Forall2 Qeq l l' -> Qsum l == Qsum l'.
Proof.
  induction 1 as [|x y l l' Hxy _ IH]; [reflexivity|].
  now rewrite !Qsum_cons, IH, Hxy.
Qed.

Lemma percent_Forall2 (l l' : list Q) (t t' : Q) :
  Forall2 Qeq l l' -> t == t' ->
  Forall2 npfloat_eq
          (map (fun val => np_scale (np_div val t) 100) l)
          (map (fun val => np_scale (np_div val t') 100) l').
Proof.
  intros H Ht. induction H as [|x y l l' Hxy _ IH]; simpl; constructor; trivial.
  apply np_scale_eq. apply (np_div_scaled 1); [reflexivity | |].
  - rewrite Hxy. ring.
  - rewrite Ht. ring.
Qed.

Lemma bin_centers_Forall2 (l l' : list Q) :
  Forall2 Qeq l l' -> Forall2 Qeq (bin_centers l) (bin_centers l').
Proof.
  induction 1 as [|a a' l l' Ha Hl IH]; [constructor|].
  destruct Hl as [|b b' l l' Hb Hl]; [constructor|].
  rewrite !bin_centers_cons. constructor; [|exact IH].
  now rewrite Ha, Hb.
Qed.

(** X19.  The histogram does not depend on the order in which the
    payload lists the peaks: the bin centres, the bin sums and the
    relative intensities come out as the same numbers. *)
Theorem X19_histogram_ignores_the_order (data data' : list (Q * Q)) (w : Q) :
  Permutation data data' ->
  Forall2 Qeq (bin_centers (bin_edges (col_rt data) w))
              (bin_centers (bin_edges (col_rt data') w)) /\
  Forall2 Qeq (binned_intensity (col_rt data) (col_intensity data) w)
              (binned_intensity (col_rt data') (col_intensity data') w) /\
  Forall2 npfloat_eq
          (relative_intensity (col_rt data) (col_intensity data) w)
          (relative_intensity (col_rt data') (col_intensity data') w).
Proof.
  intro H.
  pose proof (binned_intensity_Permutation data data' w H) as Hbinned.
  split; [|split; [exact Hbinned|]].
  - apply bin_centers_Forall2, bin_edges_Permutation.
    now apply Permutation_map.
  - unfold relative_intensity. apply percent_Forall2; [exact Hbinned|].
    unfold total_intensity. now apply Qsum_Forall2.
Qed.

Lemma X19_histogram_ignores_the_order_witness :
  let data := [(0, 10); (3 # 2, 20); (1 # 2, 5)] in
  let data' := [(3 # 2, 20); (0, 10); (1 # 2, 5)] in
  Forall2 Qeq (bin_centers (bin_edges (col_rt data) 1))
              (bin_centers (bin_edges (col_rt data') 1)) /\
  Forall2 Qeq (binned_intensity (col_rt data) (col_intensity data) 1)
              (binned_intensity (col_rt data') (col_intensity data') 1) /\
  Forall2 npfloat_eq
          (relative_intensity (col_rt data) (col_intensity data) 1)
          (relative_intensity (col_rt data') (col_intensity data') 1).
Proof.
  apply (X19_histogram_ignores_the_order
           [(0, 10); (3 # 2, 20); (1 # 2, 5)]
           [(3 # 2, 20); (0, 10); (1 # 2, 5)] 1).
  apply perm_swap.
Defined.

(** ** What a run puts on the page (lines 86-150) *)

Lemma for_each_fid_titles (env : Env) (fids : list string) :
  forall st,
    map scatter_name (fig st) = map pie_title (pie_charts st) ->
    match for_each_fid env fids st with
    | Finished st' | Raised _ st' =>
        map scatter_name (fig st') = map pie_title (pie_charts st')
    end.
Proof.
  induction fids as [|f fids IH]; intros st Hst; cbn [for_each_fid].
  - exact Hst.
  - destruct (loop_body_cases env f st) as [[e He] | [He | He]]; rewrite He.
    + exact Hst.
    + apply IH. cbn [fig pie_charts]. rewrite !map_app, Hst. reflexivity.
    + apply IH. exact Hst.
Qed.

(** X20.  However a run ends, the traces and the pies on its page are
    for the same samples in the same order: the name of the [k]-th trace
    is the title of the [k]-th pie. *)
Theorem X20_traces_and_pies_share_their_titles (env : Env)
    (fids : list string) :
  match on_confirm env fids with
  | Finished st | Raised _ st =>
      map scatter_name (fig st) = map pie_title (pie_charts st)
  end.
Proof.
  unfold on_confirm. destruct fids as [|f fids]; [reflexivity|].
  apply for_each_fid_titles. reflexivity.
Qed.

Lemma for_each_fid_sources (env : Env) (fids : list string) :
  forall st,
    match for_each_fid env fids st with
    | Finished st' | Raised _ st' =>
        (forall msg, In msg (warnings st') ->
                     In msg (warnings st) \/
                     exists f, In f fids /\ fetch_ok env f = false /\
                               msg = sample_warning env f) /\
        (forall t, In t (fig st') ->
                   In t (fig st) \/
                   exists f, In f fids /\ fetch_ok env f = true /\
                             t = sample_trace env f)
    end.
Proof.
  induction fids as [|f fids IH]; intro st; cbn [for_each_fid].
  - split; intros; now left.
  - destruct (fetch_ok env f) eqn:Hok.
    + destruct (has_peak_columns (json (response_of env f))) eqn:Hcols.
      * rewrite loop_body_success by assumption.
        match goal with |- context [for_each_fid env fids ?s] =>
          specialize (IH s); destruct (for_each_fid env fids s) end;
          cbn [fig warnings] in IH; destruct IH as [IHw IHt]; split.
        all: try (intros msg Hmsg; destruct (IHw msg Hmsg) as [H | [g [Hg [H1 H2]]]];
                  [now left | right; exists g; split; [now right | now split]]).
        all: intros t Ht; destruct (IHt t Ht) as [H | [g [Hg [H1 H2]]]];
          [ apply in_app_or in H; destruct H as [H | [<- | []]];
            [now left | right; exists f; split; [now left | now split]]
          | right; exists g; split; [now right | now split] ].
      * rewrite loop_body_missing_column by assumption.
        split; intros; now left.
    + rewrite loop_body_failure by assumption.
      match goal with |- context [for_each_fid env fids ?s] =>
        specialize (IH s); destruct (for_each_fid env fids s) end;
        cbn [fig warnings] in IH; destruct IH as [IHw IHt]; split.
      all: try (intros t Ht; destruct (IHt t Ht) as [H | [g [Hg [H1 H2]]]];
                [now left | right; exists g; split; [now right | now split]]).
      all: intros msg Hmsg; destruct (IHw msg Hmsg) as [H | [g [Hg [H1 H2]]]];
        [ apply in_app_or in H; destruct H as [H | [<- | []]];
          [now left | right; exists f; split; [now left | now split]]
        | right; exists g; split; [now right | now split] ].
Qed.

(** X21.  On the page of a run over a non-empty selection, every
    warning is the fetch warning of a selected sample whose status was
    not 200, and every trace is that of a selected sample whose status
    was 200: a sample that was fetched successfully is never warned
    about, and a failed one is never drawn. *)
Theorem X21_warnings_only_for_failed_fetches (env : Env) (fids : list string) :
  fids <> [] ->
  match on_confirm env fids with
  | Finished st | Raised _ st =>
      (forall msg, In msg (warnings st) ->
                   exists f, In f fids /\ fetch_ok env f = false /\
                             msg = sample_warning env f /\
                             names_sample msg f) /\
      (forall t, In t (fig st) ->
                 exists f, In f fids /\ fetch_ok env f = true /\
                           t = sample_trace env f)
  end.
Proof.
  intro Hne. unfold on_confirm.
  destruct fids as [|f fids]; [contradiction|].
  pose proof (for_each_fid_sources env (f :: fids) empty_page) as H.
  destruct (for_each_fid env (f :: fids) empty_page);
    destruct H as [Hw Ht]; split.
  all: try (intros msg Hmsg; destruct (Hw msg Hmsg) as [[] | [g [Hg [H1 H2]]]];
            exists g; repeat split; trivial;
            rewrite H2; apply fetch_warning_names_sample).
  all: intros t Hin; destruct (Ht t Hin) as [[] | [g [Hg [H1 H2]]]];
    exists g; repeat split; trivial.
Qed.

Lemma X21_warnings_only_for_failed_fetches_witness :
  match on_confirm (demo_env service_failing_F2) ["F1"; "F2"; "F3"]%string with
  | Finished st | Raised _ st =>
      (forall msg, In msg (warnings st) ->
                   exists f, In f ["F1"; "F2"; "F3"]%string /\
                             fetch_ok (demo_env service_failing_F2) f = false /\
                             msg = sample_warning (demo_env service_failing_F2) f /\
                             names_sample msg f) /\
      (forall t, In t (fig st) ->
                 exists f, In f ["F1"; "F2"; "F3"]%string /\
                           fetch_ok (demo_env service_failing_F2) f = true /\
                           t = sample_trace (demo_env service_failing_F2) f)
  end.
Proof.
  apply (X21_warnings_only_for_failed_fetches
           (demo_env service_failing_F2) ["F1"; "F2"; "F3"]%string).
  discriminate.
Defined.


